(** * The streaming response decoder of [pages/Index.tsx]

    A shallow embedding of [streamChat] (src/pages/Index.tsx, lines 27-161):
    the line reassembler, the frame classification, the payload decoding,
    the accumulation of deltas into the last message of the conversation,
    the final flush and the failure paths.

    Text is modelled as JavaScript has it: a string is a sequence of UTF-16
    code units.  A chunk is the text that [decoder.decode(value, {stream:
    true})] returns for one [reader.read()]: the decoder holds back the
    bytes of an incomplete character, so cutting the bytes of a stream
    differently cuts its text differently and changes nothing else.

    The state setters of React are applied in the order in which they are
    called; the model applies each one at once. *)

From Stdlib Require Import Strings.String Strings.Ascii.
From Stdlib Require Import List ZArith NArith Bool Lia Arith.
Import ListNotations.

Set Implicit Arguments.

(* ------------------------------------------------------------------ *)
(** ** JavaScript strings and arrays *)

Module JS.

Definition char := N.
Definition text := list char.

(** An ASCII literal as a JavaScript string. *)
Definition lit (s : string) : text :=
  map N_of_ascii (list_ascii_of_string s).

Definition LF : char := 10%N.
Definition CR : char := 13%N.

Definition text_eq_dec : forall a b : text, {a = b} + {a <> b} :=
  list_eq_dec N.eq_dec.

(** [a === b] on strings. *)
Definition text_eqb (a b : text) : bool :=
  if text_eq_dec a b then true else false.

Section Slice.
Context {A : Type}.

(** The index clamping shared by [String.prototype.slice] and
    [Array.prototype.slice]: a negative index counts from the end. *)
Definition clamp_index (len k : Z) : Z :=
  if (k <? 0)%Z then Z.max (len + k) 0 else Z.min k len.

(** [l.slice(start)] when [stop] is [None], [l.slice(start, stop)]
    otherwise. *)
Definition slice (l : list A) (start : Z) (stop : option Z) : list A :=
  let len := Z.of_nat (length l) in
  let from := clamp_index len start in
  let to := match stop with
            | None => len
            | Some e => clamp_index len e
            end in
  firstn (Z.to_nat (to - from)) (skipn (Z.to_nat from) l).
End Slice.

(** Position of the first occurrence of a code unit. *)
Fixpoint find_index (s : text) (c : char) : option nat :=
  match s with
  | [] => None
  | x :: r => if N.eqb x c then Some 0
              else option_map S (find_index r c)
  end.

(** [s.indexOf(c)] for a one-unit search string: [-1] when absent. *)
Definition indexOf (s : text) (c : char) : Z :=
  match find_index s c with
  | None => (-1)%Z
  | Some i => Z.of_nat i
  end.

Fixpoint startsWith (s p : text) {struct p} : bool :=
  match p, s with
  | [], _ => true
  | _ :: _, [] => false
  | b :: p', a :: s' => N.eqb a b && startsWith s' p'
  end.

Definition endsWith (s p : text) : bool :=
  startsWith (rev s) (rev p).

(** White space and line terminators removed by [String.prototype.trim]. *)
Definition isWhiteSpace (c : char) : bool :=
  ((9 <=? c) && (c <=? 13) || (c =? 32) || (c =? 160) || (c =? 5760)
   || (8192 <=? c) && (c <=? 8202) || (c =? 8232) || (c =? 8233)
   || (c =? 8239) || (c =? 8287) || (c =? 12288) || (c =? 65279))%N.

Fixpoint trimStart (s : text) : text :=
  match s with
  | [] => []
  | c :: r => if isWhiteSpace c then trimStart r else s
  end.

Definition trimEnd (s : text) : text := rev (trimStart (rev s)).

Definition trim (s : text) : text := trimEnd (trimStart s).

(** [s.split(sep)] for a one-unit separator; the empty string splits
    into one empty piece. *)
Fixpoint split (s : text) (sep : char) : list text :=
  match s with
  | [] => [[]]
  | c :: r =>
      if N.eqb c sep then [] :: split r sep
      else match split r sep with
           | h :: t => (c :: h) :: t
           | [] => [[c]]
           end
  end.

End JS.

Import JS.

(* ------------------------------------------------------------------ *)
(** ** Values returned by [JSON.parse] *)

#[local] Set Warnings "-register-all".

(** A number is kept as the literal it was read from: the double that
    [JSON.parse] returns is a function of that literal. *)
Inductive JSValue : Type :=
| JNull
| JBool (b : bool)
| JNumber (literal : text)
| JString (s : text)
| JArray (elements : list JSValue)
| JObject (properties : list (text * JSValue)).

(** The own property [name] of an object built by [JSON.parse]: of two
    members with the same key the later one wins. *)
Fixpoint own_property (properties : list (text * JSValue)) (name : text)
  : option JSValue :=
  match properties with
  | [] => None
  | (k, v) :: rest =>
      match own_property rest name with
      | Some later => Some later
      | None => if text_eqb k name then Some v else None
      end
  end.

(** [v.name] for a value that is neither [null] nor [undefined], for the
    names [choices], [delta] and [content], which no prototype defines.
    [None] is [undefined]. *)
Definition get_property (v : JSValue) (name : text) : option JSValue :=
  match v with
  | JObject properties => own_property properties name
  | _ => None
  end.

(** [v[0]] for a value that is neither [null] nor [undefined]. *)
Definition get_index0 (v : JSValue) : option JSValue :=
  match v with
  | JArray (first :: _) => Some first
  | JString (c :: _) => Some (JString [c])
  | JObject properties => own_property properties (lit "0")
  | _ => None
  end.

(** [parsed.choices?.[0]?.delta?.content].  The outer [None] is the
    TypeError raised by [parsed.choices] when [parsed] is [null]; the inner
    [None] is [undefined].  Each [?.] ends the chain with [undefined]
    when the value on its left is [undefined] or [null]. *)
Definition delta_content (parsed : JSValue) : option (option JSValue) :=
  match parsed with
  | JNull => None
  | _ =>
      Some
        match get_property parsed (lit "choices") with
        | None | Some JNull => None
        | Some choices =>
            match get_index0 choices with
            | None | Some JNull => None
            | Some first =>
                match get_property first (lit "delta") with
                | None | Some JNull => None
                | Some delta => get_property delta (lit "content")
                end
            end
        end
  end.

(* ------------------------------------------------------------------ *)
(** ** The component state and the transport *)

Inductive Role : Type := user | assistant.

Definition Role_eqb (a b : Role) : bool :=
  match a, b with
  | user, user | assistant, assistant => true
  | _, _ => false
  end.

(** [type Message = { role; content }] *)
Record Message : Type := mkMessage { role : Role; content : text }.

(** The three notifications that [streamChat] raises, named by category;
    each stands for the [toast({...})] call with the title quoted. *)
Inductive Toast : Type :=
| RateLimited        (* title "요청 제한", status 429 *)
| QuotaExhausted     (* title "크레딧 부족", status 402 *)
| GenericFailure.    (* title "오류", raised by the catch block *)

(** What [await reader.read()] yields after the last chunk: [{done: true}]
    or a rejection. *)
Inductive ReadEnd : Type := TransportDone | TransportBroken.

(** The body stream as the reader delivers it: the decoded chunks in
    arrival order, then how the stream ends. *)
Record Body : Type := mkBody { chunks : list text; ending : ReadEnd }.

(** The outcome of [await fetch(...)]: a rejection, or a response with
    its status and an optional body ([response.body] may be null). *)
Inductive FetchResult : Type :=
| FetchRejected
| Response (status : Z) (body : option Body).

(** [response.ok]: the status is in the range 200-299. *)
Definition ok (status : Z) : bool :=
  ((200 <=? status) && (status <=? 299))%Z.

(** The React state of [Index] ([messages], [isLoading]), the toasts
    raised so far, and the local variables of one [streamChat] call. *)
Record State : Type := mkState {
  messages : list Message;
  isLoading : bool;
  toasts : list Toast;
  assistantContent : text;
  textBuffer : text;
  streamDone : bool
}.

Definition setMessages (f : list Message -> list Message) (st : State) : State :=
  mkState (f (messages st)) (isLoading st) (toasts st)
          (assistantContent st) (textBuffer st) (streamDone st).

Definition setIsLoading (b : bool) (st : State) : State :=
  mkState (messages st) b (toasts st)
          (assistantContent st) (textBuffer st) (streamDone st).

Definition toast (t : Toast) (st : State) : State :=
  mkState (messages st) (isLoading st) (toasts st ++ [t])
          (assistantContent st) (textBuffer st) (streamDone st).

Definition set_assistantContent (c : text) (st : State) : State :=
  mkState (messages st) (isLoading st) (toasts st)
          c (textBuffer st) (streamDone st).

Definition set_textBuffer (b : text) (st : State) : State :=
  mkState (messages st) (isLoading st) (toasts st)
          (assistantContent st) b (streamDone st).

Definition set_streamDone (d : bool) (st : State) : State :=
  mkState (messages st) (isLoading st) (toasts st)
          (assistantContent st) (textBuffer st) d.

(** A block of statements either completes or throws; the state carries
    the effects performed up to that point. *)
Inductive Completion : Type :=
| Normal (st : State)
| Throw (st : State).

Definition completion_state (c : Completion) : State :=
  match c with Normal st | Throw st => st end.

(** The updater passed to [setMessages] at lines 105-112 and 135-142:
    copy [prev], and when the last element is an assistant message set
    its content.  The assignment is made in place on the message object;
    every message object comes from a literal of its own (lines 28 and
    76), so no object sits at two positions and the assignment shows at
    the last position only.  On an empty [prev] the source's updater
    would fail inside React; [streamChat] only queues it after the
    placeholder has been appended ([read_loop_shows]). *)
Definition set_last_content (assistantContent : text) (prev : list Message)
  : list Message :=
  match nth_error prev (length prev - 1) with
  | None => prev
  | Some lastMessage =>
      if Role_eqb (role lastMessage) assistant
      then removelast prev ++ [mkMessage (role lastMessage) assistantContent]
      else prev
  end.

(** Lines 85-89: cut the buffer at the first line feed and strip one
    trailing carriage return from the line.  [None] when the buffer holds
    no line feed. *)
Definition next_line (textBuffer : text) : option (text * text) :=
  let newlineIndex := indexOf textBuffer LF in
  if (newlineIndex =? -1)%Z then None
  else
    let line := slice textBuffer 0 (Some newlineIndex) in
    let textBuffer := slice textBuffer (newlineIndex + 1) None in
    let line := if endsWith line [CR] then slice line 0 (Some (-1)%Z) else line in
    Some (line, textBuffer).

(** Line 89 alone: one trailing carriage return removed. *)
Definition strip_cr (l : text) : text :=
  if endsWith l [CR] then removelast l else l.

(** The line reassembler on its own: every line that the loop condition of
    line 85 extracts from the buffer, and the text left over. *)
Fixpoint feed_fuel (fuel : nat) (textBuffer : text) : list text * text :=
  match fuel with
  | 0 => ([], textBuffer)
  | S fuel =>
      match next_line textBuffer with
      | None => ([], textBuffer)
      | Some (line, rest) =>
          let (lines, final) := feed_fuel fuel rest in (line :: lines, final)
      end
  end.

Definition reassemble (textBuffer : text) : list text * text :=
  feed_fuel (S (length textBuffer)) textBuffer.

(** Line 82 and the reassembler: a chunk is appended to the buffer and
    the complete lines are taken out. *)
Definition feed (textBuffer chunk : text) : list text * text :=
  reassemble (textBuffer ++ chunk).

(** The state in which the read loop starts: the user turn and the empty
    assistant placeholder appended, the locals of lines 32 and 72-73. *)
Definition streaming_start (messages0 : list Message) (userMessage : text)
  : State :=
  mkState ((messages0 ++ [mkMessage user userMessage])
             ++ [mkMessage assistant []])
          true [] [] [] false.

(** The conversation and the accumulated reply, without the locals. *)
Definition chat (st : State) : list Message * text :=
  (messages st, assistantContent st).

(** The conversation is [before] followed by the assistant message, which
    shows the accumulated reply. *)
Definition shows_reply (before : list Message) (st : State) : Prop :=
  messages st = before ++ [mkMessage assistant (assistantContent st)].

(** The last message is the assistant message and shows the accumulated
    reply. *)
Definition tracks_reply (st : State) : Prop :=
  exists before, shows_reply before st.

(** Between two values of [messages]: the same number of messages, the
    same messages before the last one, the same role tags. *)
Definition only_last_content_changes (before after : list Message) : Prop :=
  length after = length before
  /\ removelast after = removelast before
  /\ map role after = map role before.

(** The role of the last message, if there is one. *)
Definition last_role (l : list Message) : option Role :=
  option_map role (nth_error l (length l - 1)).

(** The platform: [JSON.parse] ([None] is the SyntaxError it throws), and
    the two conversions of a number that the loop body may perform, each
    a function of the literal the number was read from. *)
Class Platform : Type := {
  JSON_parse : text -> option JSValue;
  Number_ToBoolean : text -> bool;
  Number_ToString : text -> text
}.

Section Driver.

Context {platform : Platform}.

(** [if (content)]: the truthiness of a value, [undefined] included. *)
Definition ToBoolean (v : option JSValue) : bool :=
  match v with
  | None => false
  | Some JNull => false
  | Some (JBool b) => b
  | Some (JNumber literal) => Number_ToBoolean literal
  | Some (JString s) => negb (text_eqb s [])
  | Some (JArray _) => true
  | Some (JObject _) => true
  end.

(** The string that [assistantContent += content] appends, or [None]
    when the conversion raises a TypeError.  A value read by
    [JSON.parse] holds no function, so an object with an own property
    [toString] cannot be converted: that property hides
    [Object.prototype.toString] and is not callable, and [valueOf] gives
    back the object.  An array is joined with commas; [null] elements
    give the empty string, and an element that cannot be converted makes
    the whole conversion fail. *)
Fixpoint ToString (v : JSValue) : option text :=
  match v with
  | JNull => Some (lit "null")
  | JBool true => Some (lit "true")
  | JBool false => Some (lit "false")
  | JNumber literal => Some (Number_ToString literal)
  | JString s => Some s
  | JArray elements =>
      (fix join (l : list JSValue) : option text :=
         match l with
         | [] => Some []
         | x :: r =>
             match match x with JNull => Some [] | _ => ToString x end with
             | None => None
             | Some first =>
                 match r with
                 | [] => Some first
                 | _ :: _ =>
                     match join r with
                     | None => None
                     | Some others => Some (first ++ lit "," ++ others)
                     end
                 end
             end
         end) elements
  | JObject properties =>
      match own_property properties (lit "toString") with
      | Some _ => None
      | None => Some (lit "[object Object]")
      end
  end.

(** The outcome of the try block of lines 99-113 (and 130-143) up to
    the assignment of line 104. *)
Inductive Decoded : Type :=
| Thrown                 (* JSON.parse, the property access or += threw *)
| NoContent              (* content is undefined or falsy *)
| Content (delta : text). (* content is truthy; its string value *)

Definition decode (jsonStr : text) : Decoded :=
  match JSON_parse jsonStr with
  | None => Thrown
  | Some parsed =>
      match delta_content parsed with
      | None => Thrown
      | Some content =>
          if ToBoolean content
          then match content with
               | Some c =>
                   match ToString c with
                   | Some delta => Content delta
                   | None => Thrown
                   end
               | None => NoContent
               end
          else NoContent
      end
  end.

(** Lines 104-112 and 134-142. *)
Definition apply_delta (content : text) (st : State) : State :=
  let st := set_assistantContent (assistantContent st ++ content) st in
  setMessages (set_last_content (assistantContent st)) st.

(** How one pass through the body of the inner [while] loop ends: with
    [continue] or by reaching the end of the body, or with [break]. *)
Inductive Flow : Type :=
| Continue (st : State)
| Break (st : State).

Definition flow_state (f : Flow) : State :=
  match f with Continue st | Break st => st end.

(** Lines 90-117: the body of the inner loop for one extracted line. *)
Definition loop_body (line : text) (st : State) : Flow :=
  if startsWith line (lit ":") || text_eqb (trim line) []
  then Continue st
  else if negb (startsWith line (lit "data: "))
  then Continue st
  else
    let jsonStr := trim (slice line 6 None) in
    if text_eqb jsonStr (lit "[DONE]")
    then Break (set_streamDone true st)
    else
      match decode jsonStr with
      | Content content => Continue (apply_delta content st)
      | NoContent => Continue st
      | Thrown => Break (set_textBuffer (line ++ [LF] ++ textBuffer st) st)
      end.

(** The inner [while] loop of lines 85-118.  Every pass removes at least
    the line feed from the buffer or leaves the loop, so
    [S (length textBuffer)] passes are enough ([line_loop_equation]). *)
Fixpoint line_loop_fuel (fuel : nat) (st : State) : State :=
  match fuel with
  | 0 => st
  | S fuel =>
      match next_line (textBuffer st) with
      | None => st
      | Some (line, rest) =>
          match loop_body line (set_textBuffer rest st) with
          | Continue st => line_loop_fuel fuel st
          | Break st => st
          end
      end
  end.

Definition line_loop (st : State) : State :=
  line_loop_fuel (S (length (textBuffer st))) st.

(** Lines 82-118: one chunk arrives. *)
Definition process_chunk (st : State) (value : text) : State :=
  line_loop (set_textBuffer (textBuffer st ++ value) st).

(** The outer loop of lines 78-119 over what the reader delivers. *)
Fixpoint read_loop (chunks : list text) (ending : ReadEnd) (st : State)
  : Completion :=
  if streamDone st then Normal st
  else
    match chunks with
    | [] =>
        match ending with
        | TransportDone => Normal st
        | TransportBroken => Throw st
        end
    | value :: chunks => read_loop chunks ending (process_chunk st value)
    end.

(** The body of the [for] loop of the final flush, lines 124-146. *)
Definition flush_raw (st : State) (raw : text) : State :=
  if text_eqb raw [] || startsWith raw (lit ":") || text_eqb (trim raw) []
  then st
  else if negb (startsWith raw (lit "data: "))
  then st
  else
    let jsonStr := trim (slice raw 6 None) in
    if text_eqb jsonStr (lit "[DONE]")
    then st
    else
      match decode jsonStr with
      | Content content => apply_delta content st
      | NoContent => st
      | Thrown => st
      end.

(** Lines 121-148. *)
Definition final_flush (st : State) : State :=
  if negb (text_eqb (trim (textBuffer st)) [])
  then fold_left flush_raw (split (textBuffer st) LF) st
  else st.

(** Lines 35-148: the try block. *)
Definition try_block (net : FetchResult) (st : State) : Completion :=
  match net with
  | FetchRejected => Throw st
  | Response status body =>
      if negb (ok status) then
        if (status =? 429)%Z then
          Normal (setIsLoading false (toast RateLimited st))
        else if (status =? 402)%Z then
          Normal (setIsLoading false (toast QuotaExhausted st))
        else Throw st
      else
        match body with
        | None => Throw st
        | Some body =>
            let st := set_streamDone false (set_textBuffer [] st) in
            let st :=
              setMessages (fun prev => prev ++ [mkMessage assistant []]) st in
            match read_loop (chunks body) (ending body) st with
            | Throw st => Throw st
            | Normal st => Normal (final_flush st)
            end
        end
  end.

(** Lines 149-157: the catch block. *)
Definition catch_block (st : State) : State :=
  setMessages (fun prev => slice prev 0 (Some (-1)%Z)) (toast GenericFailure st).

(** [streamChat(userMessage)] run from a render in which the state holds
    [messages0], against the given behaviour of the network. *)
Definition streamChat (messages0 : list Message) (userMessage : text)
  (net : FetchResult) : State :=
  let newMessages := messages0 ++ [mkMessage user userMessage] in
  let st := mkState newMessages true [] [] [] false in
  let st :=
    match try_block net st with
    | Normal st => st
    | Throw st => catch_block st
    end in
  setIsLoading false st.

(** *** Notions used to state the properties *)

(** The delta that one piece of text carries as a frame: none for a
    blank, a comment, an unrecognised line, the sentinel, or a payload
    that does not decode to a truthy content. *)
Definition frame_delta (raw : text) : option text :=
  if text_eqb raw [] || startsWith raw (lit ":") || text_eqb (trim raw) []
  then None
  else if negb (startsWith raw (lit "data: "))
  then None
  else
    let jsonStr := trim (slice raw 6 None) in
    if text_eqb jsonStr (lit "[DONE]")
    then None
    else
      match decode jsonStr with
      | Content content => Some content
      | NoContent => None
      | Thrown => None
      end.

(** A data line whose payload is the sentinel. *)
Definition sentinel_line (raw : text) : bool :=
  startsWith raw (lit "data: ")
  && text_eqb (trim (slice raw 6 None)) (lit "[DONE]").

(** A data line whose payload is a JSON object. *)
Definition object_line (raw : text) : bool :=
  startsWith raw (lit "data: ")
  && match JSON_parse (trim (slice raw 6 None)) with
     | Some (JObject _) => true
     | _ => false
     end.

(** A line of the wire format: blank, comment, or data line whose payload
    is the sentinel or a JSON object. *)
Definition protocol_line (raw : text) : bool :=
  text_eqb (trim raw) [] || startsWith raw (lit ":")
  || sentinel_line raw || object_line raw.

(** On the pieces of a stream cut at its line feeds (the last piece is
    the unterminated remainder): every terminated line is a line of the
    wire format. *)
Fixpoint protocol_lines (pieces : list text) : bool :=
  match pieces with
  | [] => true
  | raw :: rest =>
      match rest with
      | [] => true
      | _ :: _ => protocol_line raw && protocol_lines rest
      end
  end.

(** On the same pieces: a terminated sentinel line ends the stream,
    nothing follows its line feed. *)
Fixpoint sentinel_last (pieces : list text) : bool :=
  match pieces with
  | [] => true
  | raw :: rest =>
      match rest with
      | [] => true
      | _ :: _ =>
          if sentinel_line raw
          then match rest with [[]] => true | _ => false end
          else sentinel_last rest
      end
  end.

(** A well-formed stream: every terminated line is a line of the wire
    format. *)
Definition well_formed (stream : text) : bool :=
  protocol_lines (split stream LF).

(** No piece begins with the data prefix. *)
Definition no_data_piece (pieces : list text) : bool :=
  forallb (fun raw => negb (startsWith raw (lit "data: "))) pieces.

(** On the pieces of a stream: no data line, terminated or not, follows a
    terminated sentinel line (blank lines, comments and other text may). *)
Fixpoint sentinel_closes (pieces : list text) : bool :=
  match pieces with
  | [] => true
  | raw :: rest =>
      match rest with
      | [] => true
      | _ :: _ =>
          if sentinel_line raw
          then no_data_piece rest
          else sentinel_closes rest
      end
  end.

(** The final flush without its guard ([final_flush_unguarded]). *)
Definition flush_all (buffer : text) (st : State) : State :=
  fold_left flush_raw (split buffer LF) st.

End Driver.

(* ------------------------------------------------------------------ *)
(** ** A reference [JSON.parse]

    The driver above is stated for any [JSON.parse].  To run it on
    concrete streams, here is the JSON grammar of ECMA-404 as
    [JSON.parse] reads it.  Numbers are returned as their literal; the
    double that a literal denotes, its truthiness and its string are
    computed from the literal at the end of the module. *)

Module Json.

Definition is_ws (c : char) : bool :=
  ((c =? 9) || (c =? 10) || (c =? 13) || (c =? 32))%N.

Fixpoint skip_ws (s : text) : text :=
  match s with
  | [] => []
  | c :: r => if is_ws c then skip_ws r else s
  end.

Definition is_digit (c : char) : bool := ((48 <=? c) && (c <=? 57))%N.

Definition hex_value (c : char) : option N :=
  (if (48 <=? c) && (c <=? 57) then Some (c - 48)
   else if (65 <=? c) && (c <=? 70) then Some (c - 55)
   else if (97 <=? c) && (c <=? 102) then Some (c - 87)
   else None)%N.

(** The code unit written [\uXXXX]. *)
Definition hex4 (a b c d : char) : option char :=
  match hex_value a, hex_value b, hex_value c, hex_value d with
  | Some a, Some b, Some c, Some d => Some (((a * 16 + b) * 16 + c) * 16 + d)%N
  | _, _, _, _ => None
  end.

(** The one-letter escapes: quote, backslash, slash, b, f, n, r, t. *)
Definition simple_escape (e : char) : option char :=
  (if e =? 34 then Some 34
   else if e =? 92 then Some 92
   else if e =? 47 then Some 47
   else if e =? 98 then Some 8
   else if e =? 102 then Some 12
   else if e =? 110 then Some 10
   else if e =? 114 then Some 13
   else if e =? 116 then Some 9
   else None)%N.

(** The characters of a string after its opening quote, up to and
    including the closing quote. *)
Fixpoint parse_chars (s : text) : option (text * text) :=
  match s with
  | [] => None
  | c :: r =>
      if (c =? 34)%N then Some ([], r)
      else if (c =? 92)%N then
        match r with
        | [] => None
        | e :: r' =>
            match simple_escape e with
            | Some x =>
                match parse_chars r' with
                | Some (str, rest) => Some (x :: str, rest)
                | None => None
                end
            | None =>
                if (e =? 117)%N then
                  match r' with
                  | h1 :: h2 :: h3 :: h4 :: r'' =>
                      match hex4 h1 h2 h3 h4 with
                      | Some x =>
                          match parse_chars r'' with
                          | Some (str, rest) => Some (x :: str, rest)
                          | None => None
                          end
                      | None => None
                      end
                  | _ => None
                  end
                else None
            end
        end
      else if (c <? 32)%N then None
      else
        match parse_chars r with
        | Some (str, rest) => Some (c :: str, rest)
        | None => None
        end
  end.

Fixpoint span_digits (s : text) : text * text :=
  match s with
  | [] => ([], [])
  | c :: r =>
      if is_digit c then let (ds, rest) := span_digits r in (c :: ds, rest)
      else ([], s)
  end.

(** minus? int frac? exp? *)
Definition parse_number (s : text) : option (text * text) :=
  let (sign, s) := match s with
                   | (45 :: r)%N => ([45%N], r)
                   | _ => ([], s)
                   end in
  let int :=
    match s with
    | [] => None
    | c :: r =>
        if (c =? 48)%N then Some ([c], r)
        else if is_digit c then
          let (ds, rest) := span_digits r in Some (c :: ds, rest)
        else None
    end in
  match int with
  | None => None
  | Some (int, s) =>
      let frac :=
        match s with
        | (46 :: r)%N =>
            match span_digits r with
            | ([], _) => None
            | (ds, rest) => Some (46%N :: ds, rest)
            end
        | _ => Some ([], s)
        end in
      match frac with
      | None => None
      | Some (frac, s) =>
          let exp :=
            match s with
            | e :: r =>
                if (e =? 101)%N || (e =? 69)%N then
                  let (esign, r) :=
                    match r with
                    | g :: r' =>
                        if (g =? 43)%N || (g =? 45)%N then ([g], r')
                        else ([], r)
                    | [] => ([], r)
                    end in
                  match span_digits r with
                  | ([], _) => None
                  | (ds, rest) => Some (e :: esign ++ ds, rest)
                  end
                else Some ([], s)
            | [] => Some ([], s)
            end in
          match exp with
          | None => None
          | Some (exp, rest) => Some (sign ++ int ++ frac ++ exp, rest)
          end
      end
  end.

Definition keyword (s word : text) (v : JSValue) : option (JSValue * text) :=
  if startsWith s word then Some (v, skipn (length word) s) else None.

Fixpoint parse_value (fuel : nat) (s : text) : option (JSValue * text) :=
  match fuel with
  | 0 => None
  | S fuel =>
      match skip_ws s with
      | [] => None
      | c :: r =>
          if (c =? 110)%N then keyword (c :: r) (lit "null") JNull
          else if (c =? 116)%N then keyword (c :: r) (lit "true") (JBool true)
          else if (c =? 102)%N then keyword (c :: r) (lit "false") (JBool false)
          else if (c =? 34)%N then
            match parse_chars r with
            | Some (str, rest) => Some (JString str, rest)
            | None => None
            end
          else if (c =? 91)%N then
            match skip_ws r with
            | (93 :: rest)%N => Some (JArray [], rest)
            | _ =>
                match parse_elements fuel r with
                | Some (vs, rest) => Some (JArray vs, rest)
                | None => None
                end
            end
          else if (c =? 123)%N then
            match skip_ws r with
            | (125 :: rest)%N => Some (JObject [], rest)
            | _ =>
                match parse_members fuel r with
                | Some (ms, rest) => Some (JObject ms, rest)
                | None => None
                end
            end
          else
            match parse_number (c :: r) with
            | Some (literal, rest) => Some (JNumber literal, rest)
            | None => None
            end
      end
  end

with parse_elements (fuel : nat) (s : text) : option (list JSValue * text) :=
  match fuel with
  | 0 => None
  | S fuel =>
      match parse_value fuel s with
      | None => None
      | Some (v, rest) =>
          match skip_ws rest with
          | (44 :: rest)%N =>
              match parse_elements fuel rest with
              | Some (vs, rest) => Some (v :: vs, rest)
              | None => None
              end
          | (93 :: rest)%N => Some ([v], rest)
          | _ => None
          end
      end
  end

with parse_members (fuel : nat) (s : text)
  : option (list (text * JSValue) * text) :=
  match fuel with
  | 0 => None
  | S fuel =>
      match skip_ws s with
      | (34 :: r)%N =>
          match parse_chars r with
          | None => None
          | Some (key, rest) =>
              match skip_ws rest with
              | (58 :: rest)%N =>
                  match parse_value fuel rest with
                  | None => None
                  | Some (v, rest) =>
                      match skip_ws rest with
                      | (44 :: rest)%N =>
                          match parse_members fuel rest with
                          | Some (ms, rest) => Some ((key, v) :: ms, rest)
                          | None => None
                          end
                      | (125 :: rest)%N => Some ([(key, v)], rest)
                      | _ => None
                      end
                  end
              | _ => None
              end
          end
      | _ => None
      end
  end.

(** [JSON.parse(s)]: one value, white space around it, nothing else.
    A call of the parser is reached after at most two calls without a
    character read in between, so twice the length is enough fuel. *)
Definition parse (s : text) : option JSValue :=
  match parse_value (2 * length s + 2) s with
  | Some (v, rest) =>
      match skip_ws rest with
      | [] => Some v
      | _ :: _ => None
      end
  | None => None
  end.

(** *** Numbers

    [JSON.parse] turns a number literal into the double nearest to its
    value, ties to the even significand.  The value of a literal and the
    doubles are kept exactly, as quotients of integers. *)

Definition digits_value (ds : text) : Z :=
  fold_left (fun a c => 10 * a + (Z.of_N c - 48))%Z ds 0%Z.

(** The sign of a literal and its magnitude [m * 10 ^ e]. *)
Definition literal_value (literal : text) : bool * (Z * Z) :=
  let (negative, s) := match literal with
                       | (45 :: r)%N => (true, r)
                       | _ => (false, literal)
                       end in
  let (int, s) := span_digits s in
  let (frac, s) := match s with
                   | (46 :: r)%N => span_digits r
                   | _ => ([], s)
                   end in
  let exp := match s with
             | [] => 0%Z
             | _ :: r =>
                 match r with
                 | (45 :: ds)%N => (- digits_value ds)%Z
                 | (43 :: ds)%N => digits_value ds
                 | _ => digits_value r
                 end
             end in
  (negative, (digits_value (int ++ frac), (exp - Z.of_nat (length frac))%Z)).

(** The magnitude of a double: zero, infinity, or [q * 2 ^ e] with
    [2 ^ 52 <= q < 2 ^ 53] and [-1074 <= e <= 971], or [0 < q < 2 ^ 52]
    and [e = -1074]. *)
Inductive Double : Type :=
| Zero
| Infinity
| Finite (q e : Z).

Definition Double_eqb (x y : Double) : bool :=
  match x, y with
  | Zero, Zero | Infinity, Infinity => true
  | Finite q e, Finite q' e' => ((q =? q') && (e =? e'))%Z
  | _, _ => false
  end.

(** The quotient [n / d] rounded to the nearest integer, ties to even. *)
Definition round_half_even (n d : Z) : Z :=
  let q := (n / d)%Z in
  let r := (n mod d)%Z in
  if (2 * r <? d)%Z then q
  else if (d <? 2 * r)%Z then (q + 1)%Z
  else if Z.even q then q else (q + 1)%Z.

(** [n / d] divided by [2 ^ e], as a quotient. *)
Definition scale2 (n d e : Z) : Z * Z :=
  if (0 <=? e)%Z then (n, (d * 2 ^ e)%Z) else ((n * 2 ^ (- e))%Z, d).

(** [n / d] multiplied by [10 ^ p], as a quotient. *)
Definition scale10 (n d p : Z) : Z * Z :=
  if (0 <=? p)%Z then ((n * 10 ^ p)%Z, d) else (n, (d * 10 ^ (- p))%Z).

(** The double nearest to [n / d], for positive [n] and [d]. *)
Definition nearest_double (n d : Z) : Double :=
  let l := (Z.log2 n - Z.log2 d)%Z in
  let l := (let (a, b) := scale2 n d l in
            if (b <=? a)%Z then l else l - 1)%Z in
  let e := Z.max (l - 52) (-1074) in
  let (a, b) := scale2 n d e in
  let q := round_half_even a b in
  let (q, e) := if (q =? 2 ^ 53)%Z then ((2 ^ 52)%Z, (e + 1)%Z) else (q, e) in
  if (q =? 0)%Z then Zero
  else if (971 <? e)%Z then Infinity
  else Finite q e.

(** The sign and the magnitude of the number that a literal denotes. *)
Definition to_double (literal : text) : bool * Double :=
  let '(negative, (m, e)) := literal_value literal in
  if (m =? 0)%Z then (negative, Zero)
  else let (n, d) := scale10 m 1 e in (negative, nearest_double n d).

(** [if (content)] for a number: false for zero (of either sign). *)
Definition number_ToBoolean (literal : text) : bool :=
  match snd (to_double literal) with
  | Zero => false
  | Infinity | Finite _ _ => true
  end.

Fixpoint digits_fuel (fuel : nat) (n : Z) (acc : text) : text :=
  match fuel with
  | 0 => acc
  | S fuel =>
      let acc := Z.to_N (48 + n mod 10) :: acc in
      if (n <? 10)%Z then acc else digits_fuel fuel (n / 10)%Z acc
  end.

(** The decimal digits of a positive integer or of zero. *)
Definition decimal_digits (n : Z) : text :=
  digits_fuel (S (Z.to_nat (Z.log2 n))) n [].

(** The [n] with [10 ^ (n - 1) <= x < 10 ^ n], for [x = q * 2 ^ e]
    given also as the quotient [xn / xd].  The estimate from the binary
    logarithm is at most one below [n - 1] and at most three below [n]. *)
Definition decimal_point (q e xn xd : Z) : Z :=
  let below n := let (a, b) := scale10 xd xn n in (a <=? b)%Z in
  let est := ((Z.log2 q + e) * 30103 / 100000 - 1)%Z in
  if negb (below est) then est
  else if negb (below (est + 1)%Z) then (est + 1)%Z
  else if negb (below (est + 2)%Z) then (est + 2)%Z
  else if negb (below (est + 3)%Z) then (est + 3)%Z
  else (est + 4)%Z.

(** Number::toString, steps 5 and following: the least number of digits
    [k], and the digits [s], such that [s * 10 ^ (n - k)] is read back as
    [x]; of two such [s] the one nearer to [x].  Seventeen digits always
    are enough. *)
Fixpoint shortest_digits (fuel : nat) (k : Z) (xn xd n : Z) (x : Double)
  : Z * Z :=
  let (a, b) := scale10 xn xd (k - n) in
  let lo := (a / b)%Z in
  let hi := (lo + 1)%Z in
  let reads_back s :=
    let (c, d) := scale10 s 1 (n - k) in Double_eqb (nearest_double c d) x in
  let lo_nearer :=
    if (2 * a <? (2 * lo + 1) * b)%Z then true
    else if ((2 * lo + 1) * b <? 2 * a)%Z then false
    else Z.even lo in
  let norm s := if (s =? 10 ^ k)%Z then ((s / 10)%Z, (n + 1)%Z) else (s, n) in
  match fuel with
  | 0 => (lo, n)
  | S fuel =>
      match reads_back lo, reads_back hi with
      | true, true => if lo_nearer then (lo, n) else norm hi
      | true, false => (lo, n)
      | false, true => norm hi
      | false, false => shortest_digits fuel (k + 1)%Z xn xd n x
      end
  end.

Definition zeros (n : Z) : text := repeat 48%N (Z.to_nat n).

(** Number::toString, the layout of the digits [ds] of [s] for the
    decimal point [n]. *)
Definition layout (ds : text) (n : Z) : text :=
  let k := Z.of_nat (length ds) in
  if ((k <=? n) && (n <=? 21))%Z then ds ++ zeros (n - k)
  else if ((0 <? n) && (n <=? 21))%Z
  then firstn (Z.to_nat n) ds ++ lit "." ++ skipn (Z.to_nat n) ds
  else if ((-6 <? n) && (n <=? 0))%Z then lit "0." ++ zeros (- n) ++ ds
  else
    let e := (n - 1)%Z in
    let exponent :=
      lit "e" ++ (if (0 <=? e)%Z then lit "+" else lit "-")
      ++ decimal_digits (Z.abs e) in
    match ds with
    | [] => []
    | [d] => [d] ++ exponent
    | d :: more => [d] ++ lit "." ++ more ++ exponent
    end.

(** The string that [+=] appends for a number. *)
Definition number_ToString (literal : text) : text :=
  match to_double literal with
  | (_, Zero) => lit "0"
  | (negative, Infinity) =>
      (if negative then lit "-" else []) ++ lit "Infinity"
  | (negative, Finite q e) =>
      let (xn, xd) := scale2 q 1 (- e) in
      let n := decimal_point q e xn xd in
      let (s, n) := shortest_digits 17 1 xn xd n (Finite q e) in
      (if negative then lit "-" else []) ++ layout (decimal_digits s) n
  end.

End Json.

(** The reference platform, and the driver on it. *)
Definition reference_platform : Platform :=
  {| JSON_parse := Json.parse;
     Number_ToBoolean := Json.number_ToBoolean;
     Number_ToString := Json.number_ToString |}.

Definition run_streamChat : list Message -> text -> FetchResult -> State :=
  @streamChat reference_platform.

(** The text of the last message of the conversation. *)
Definition final_text (st : State) : option text :=
  option_map content (nth_error (messages st) (length (messages st) - 1)).

(** A literal in which the apostrophe stands for the double quote, to
    write JSON payloads. *)
Definition jlit (s : string) : text :=
  map (fun c => if (c =? 39)%N then 34%N else c) (lit s).


(** *** Streams used as examples *)

(** The data line whose payload carries [c] at [choices[0].delta.content]. *)
Definition delta_line (c : string) : text :=
  jlit "data: {'choices':[{'delta':{'content':'" ++ lit c ++ jlit "'}}]}".

Definition done_line : text := lit "data: [DONE]".

(** Two deltas, the first ended by carriage return and line feed, a
    comment and a blank line between them, then the sentinel. *)
Definition hello_stream : text :=
  delta_line "Hel" ++ [CR; LF] ++ lit ": keep-alive" ++ [LF; LF]
  ++ delta_line "lo" ++ [LF] ++ done_line ++ [LF].

(** The same text cut inside a payload, between the carriage return and
    the line feed, and on a line feed. *)
Definition hello_chunks : list text :=
  [ jlit "data: {'choices':[{'del";
    jlit "ta':{'content':'Hel'}}]}" ++ [CR];
    [LF] ++ lit ": keep-alive" ++ [LF; LF] ++ delta_line "lo";
    [LF] ++ done_line ++ [LF] ].

(** The same stream closed as event streams usually are, with a blank
    line after the sentinel line, and cut into one more chunk. *)
Definition hello_stream_closed : text := hello_stream ++ [LF].

Definition hello_chunks_closed : list text := hello_chunks ++ [[LF]].

Definition ok_response (chunks : list text) (ending : ReadEnd) : FetchResult :=
  Response 200 (Some (mkBody chunks ending)).

(** A stream whose last data line has no line feed after it. *)
Definition unterminated_chunks : list text :=
  [ delta_line "A" ++ [LF]; delta_line "B" ].

(** The state in which the read loop leaves that stream. *)
Definition unterminated_exit : State :=
  completion_state
    (read_loop (platform := reference_platform) unterminated_chunks
               TransportDone (streaming_start [] (lit "hi"))).

(** One chunk in which a data line follows the sentinel line. *)
Definition sentinel_then_data : list text :=
  [ done_line ++ [LF] ++ delta_line "X" ++ [LF] ].

(** The same text with the chunk boundary after the sentinel line. *)
Definition sentinel_then_data_split : list text :=
  [ done_line ++ [LF]; delta_line "X" ++ [LF] ].

(** A payload with a line feed between two of its tokens, delivered in two
    chunks that meet at that line feed, then one more data line.  The
    payload as a whole is the JSON text of [split_payload]. *)
Definition split_payload_chunks : list text :=
  [ jlit "data: {'choices':[{'delta':{'content':'Hi'}}]," ++ [LF];
    jlit "'done':false}" ++ [LF];
    delta_line "B" ++ [LF] ].

Definition split_payload : text :=
  jlit "{'choices':[{'delta':{'content':'Hi'}}]," ++ [LF]
  ++ jlit "'done':false}".

(** A stream that breaks after one delta has arrived. *)
Definition broken_after_delta : FetchResult :=
  ok_response [ delta_line "Hi" ++ [LF] ] TransportBroken.

(* ------------------------------------------------------------------ *)
(** ** What [Index] renders (pages/Index.tsx, lines 163-199) *)

(** The body of the page: the welcome text when there is no message,
    otherwise one bubble per message and, under them, the spinner of
    lines 184-190. *)
Inductive View : Type :=
| Welcome
| Conversation (bubbles : list Message) (spinner : bool).

(** [messages[messages.length - 1]?.role === "user"] *)
Definition last_is_user (messages : list Message) : bool :=
  match nth_error messages (length messages - 1) with
  | Some lastMessage => Role_eqb (role lastMessage) user
  | None => false
  end.

Definition render (st : State) : View :=
  if length (messages st) =? 0 then Welcome
  else Conversation (messages st)
                    (isLoading st && last_is_user (messages st)).

(** The state after lines 28-30: the user turn appended, the loading
    flag raised. *)
Definition request_entry (messages0 : list Message) (userMessage : text)
  : State :=
  mkState (messages0 ++ [mkMessage user userMessage]) true [] [] [] false.

Section Reply.

Context {platform : Platform}.

(** The text that a piece of the stream adds to the reply. *)
Definition piece_delta (raw : text) : text :=
  match frame_delta raw with
  | Some d => d
  | None => []
  end.

(** The deltas of the pieces of a stream, in the order of the stream. *)
Definition reply_of_stream (stream : text) : text :=
  concat (map piece_delta (split stream LF)).

(** The first line of the buffer is a data line whose payload is not the
    sentinel and does not decode. *)
Definition undecodable_line (l : text) : Prop :=
  startsWith (strip_cr l) (lit "data: ") = true
  /\ trim (slice (strip_cr l) 6 None) <> lit "[DONE]"
  /\ decode (trim (slice (strip_cr l) 6 None)) = Thrown.

(** A line at which the streaming loop goes on to the next line: not the
    sentinel line, and not a data line whose payload fails to decode. *)
Definition line_passes (line : text) : bool :=
  negb (sentinel_line line)
  && negb (startsWith line (lit "data: ")
           && match decode (trim (slice line 6 None)) with
              | Thrown => true
              | NoContent | Content _ => false
              end).

End Reply.

(* ------------------------------------------------------------------ *)
(** ** The input box (components/ChatInput.tsx, src/unnamed/part_000) *)

(** The state of [ChatInput], lines 25-28.  A [File] is opaque. *)
Record ChatInput (File : Type) : Type := mkChatInput {
  input : text;
  model : text;
  isAttachmentOpen : bool;
  attachedFiles : list File
}.

Arguments mkChatInput {File} _ _ _ _.

Definition setInput {File : Type} (v : text) (ci : ChatInput File)
  : ChatInput File :=
  mkChatInput v (model ci) (isAttachmentOpen ci) (attachedFiles ci).

Definition setAttachedFiles {File : Type} (f : list File -> list File)
  (ci : ChatInput File) : ChatInput File :=
  mkChatInput (input ci) (model ci) (isAttachmentOpen ci)
              (f (attachedFiles ci)).

Definition setIsAttachmentOpen {File : Type} (b : bool) (ci : ChatInput File)
  : ChatInput File :=
  mkChatInput (input ci) (model ci) b (attachedFiles ci).

(** Lines 31-36.  The first component is the argument of the call of
    [onSend], if it is called. *)
Definition handleSend {File : Type} (isLoading : bool) (ci : ChatInput File)
  : option text * ChatInput File :=
  if negb (text_eqb (trim (input ci)) []) && negb isLoading
  then (Some (trim (input ci)), setInput [] ci)
  else (None, ci).

(** The fields of the keyboard event that line 39 reads. *)
Record KeyboardEvent : Type := mkKeyboardEvent {
  key : text;
  shiftKey : bool
}.

(** Lines 38-43.  The first component tells whether [preventDefault] was
    called. *)
Definition handleKeyPress {File : Type} (e : KeyboardEvent) (isLoading : bool)
  (ci : ChatInput File) : bool * (option text * ChatInput File) :=
  if text_eqb (key e) (lit "Enter") && negb (shiftKey e)
  then (true, handleSend isLoading ci)
  else (false, (None, ci)).

(** Line 176: the [disabled] attribute of the send button. *)
Definition send_disabled {File : Type} (isLoading : bool) (ci : ChatInput File)
  : bool :=
  text_eqb (trim (input ci)) [] || isLoading.

(** Lines 45-55; [files] is [e.target.files], which may be null.  (The
    reset of the file input's value is an effect on the page only.) *)
Definition handleFileSelect {File : Type} (files : option (list File))
  (ci : ChatInput File) : ChatInput File :=
  match files with
  | Some newFiles => setAttachedFiles (fun prev => prev ++ newFiles) ci
  | None => ci
  end.

(** [l.filter((_, i) => i !== index)], with [i] counted from [from]. *)
Fixpoint filter_index {A : Type} (from : nat) (index : Z) (l : list A)
  : list A :=
  match l with
  | [] => []
  | x :: r =>
      if (Z.of_nat from =? index)%Z then filter_index (S from) index r
      else x :: filter_index (S from) index r
  end.

(** Lines 57-59.  The index is the position that [map] gives the preview
    at line 100, an integer. *)
Definition handleRemoveFile {File : Type} (index : Z) (ci : ChatInput File)
  : ChatInput File :=
  setAttachedFiles (filter_index 0 index) ci.

(** [<ChatInput onSend={streamChat} isLoading={isLoading} />] (line 197 of
    Index.tsx): a click on the send button, with the run of [streamChat]
    that it starts, if it starts one. *)
Definition send_click {platform : Platform} {File : Type}
  (messages0 : list Message) (isLoading : bool) (ci : ChatInput File)
  (net : FetchResult) : option State * ChatInput File :=
  match handleSend isLoading ci with
  | (Some userMessage, ci') => (Some (streamChat messages0 userMessage net), ci')
  | (None, ci') => (None, ci')
  end.

(* ------------------------------------------------------------------ *)
(** ** The file preview (components/FilePreview.tsx, src/unnamed/part_001) *)

(** Line 10. *)
Definition isImage (type : text) : bool := startsWith type (lit "image/").

(** Line 11. *)
Definition isPDF (type : text) : bool := text_eqb type (lit "application/pdf").

(** What line 17 shows: the picture itself, or the file icon. *)
Inductive Thumbnail : Type := Picture | FileIcon.

Definition thumbnail (type : text) : Thumbnail :=
  if isImage type then Picture else FileIcon.

(** The three labels of line 43. *)
Inductive KindLabel : Type :=
| LabelPDF      (* "PDF" *)
| LabelImage    (* "이미지" *)
| LabelFile.    (* "파일" *)

Definition kind_label (type : text) : KindLabel :=
  if isPDF type then LabelPDF
  else if isImage type then LabelImage
  else LabelFile.

(** *** Examples for the input box and the stream *)

(** The input box with text typed between blanks and one attachment. *)
Definition typed_input : ChatInput nat :=
  mkChatInput (lit "  hi there ") (lit "google/gemini-2.5-flash") false [7].

(** A stream with a comment between its two data lines, in two chunks,
    and the stream without the comment, in two other chunks. *)
Definition commented_chunks : list text :=
  [ delta_line "A" ++ [LF] ++ lit ": ping"; [LF] ++ delta_line "B" ++ [LF] ].

Definition uncommented_chunks : list text :=
  [ delta_line "A"; [LF] ++ delta_line "B" ++ [LF] ].

(** The state after the first chunk of [split_payload_chunks], and the
    line at the head of its buffer. *)
Definition blocked_state : State :=
  process_chunk (platform := reference_platform)
    (streaming_start [] (lit "hi"))
    (jlit "data: {'choices':[{'delta':{'content':'Hi'}}]," ++ [LF]).

Definition blocked_line : text :=
  jlit "data: {'choices':[{'delta':{'content':'Hi'}}],".

(* ------------------------------------------------------------------ *)
(** ** Facts about the string operations *)

Unset Implicit Arguments.

Section SliceFacts.
Context {A : Type}.

Lemma slice_from (l : list A) (k : nat) :
  slice l (Z.of_nat k) None = skipn k l.
Proof.
  unfold slice, clamp_index.
  destruct (Z.of_nat k <? 0)%Z eqn:E; [apply Z.ltb_lt in E; lia|].
  destruct (Nat.le_gt_cases k (length l)) as [Hk|Hk].
  - rewrite Z.min_l by lia. rewrite Nat2Z.id.
    apply firstn_all2. rewrite length_skipn. lia.
  - rewrite Z.min_r by lia. rewrite Nat2Z.id.
    rewrite !(skipn_all2 l) by lia. apply firstn_nil.
Qed.

Lemma clamp_index_0 (len : Z) : (0 <= len)%Z -> clamp_index len 0 = 0%Z.
Proof. intros H. unfold clamp_index. simpl. lia. Qed.

Lemma clamp_index_nat (len : Z) (k : nat) :
  (Z.of_nat k <= len)%Z -> clamp_index len (Z.of_nat k) = Z.of_nat k.
Proof.
  intros H. unfold clamp_index.
  destruct (Z.of_nat k <? 0)%Z eqn:E; [apply Z.ltb_lt in E; lia|lia].
Qed.

Lemma slice_upto (l : list A) (k : nat) :
  k <= length l -> slice l 0 (Some (Z.of_nat k)) = firstn k l.
Proof.
  intros Hk. unfold slice.
  rewrite clamp_index_0, clamp_index_nat by lia.
  rewrite Z.sub_0_r, Nat2Z.id. reflexivity.
Qed.

Lemma slice_drop_last (l : list A) :
  slice l 0 (Some (-1)%Z) = removelast l.
Proof.
  unfold slice. rewrite clamp_index_0 by lia. simpl skipn.
  rewrite removelast_firstn_len. f_equal.
  unfold clamp_index. destruct (Z.ltb_spec (-1) 0); [|lia].
  destruct l as [|a l]; [reflexivity|]. cbn [length Nat.pred]. lia.
Qed.

End SliceFacts.

Lemma find_index_app (l r : text) (c : char) :
  ~ In c l -> find_index (l ++ c :: r) c = Some (length l).
Proof.
  induction l as [|x l IH]; simpl; intros Hn.
  - now rewrite N.eqb_refl.
  - destruct (N.eqb_spec x c) as [->|_]; [tauto|].
    rewrite IH by tauto. reflexivity.
Qed.

Lemma find_index_none (s : text) (c : char) :
  ~ In c s -> find_index s c = None.
Proof.
  induction s as [|x s IH]; simpl; intros Hn; [reflexivity|].
  destruct (N.eqb_spec x c) as [->|_]; [tauto|].
  rewrite IH by tauto. reflexivity.
Qed.

(** A text either holds no [c] or splits at its first [c]. *)
Lemma first_occurrence (s : text) (c : char) :
  ~ In c s \/ exists l r, s = l ++ c :: r /\ ~ In c l.
Proof.
  induction s as [|x s IH]; [left; tauto|].
  destruct (N.eq_dec x c) as [->|Hx].
  - right. exists [], s. simpl. tauto.
  - destruct IH as [IH|(l & r & -> & Hl)].
    + left. simpl. tauto.
    + right. exists (x :: l), r. simpl. split; [reflexivity|tauto].
Qed.

Lemma next_line_none (b : text) : ~ In LF b -> next_line b = None.
Proof.
  intros H. unfold next_line, indexOf. now rewrite find_index_none.
Qed.

Lemma next_line_app (l r : text) :
  ~ In LF l -> next_line (l ++ LF :: r) = Some (strip_cr l, r).
Proof.
  intros H. unfold next_line, indexOf. rewrite find_index_app by assumption.
  destruct (Z.of_nat (length l) =? -1)%Z eqn:E; [apply Z.eqb_eq in E; lia|].
  rewrite slice_upto by (rewrite length_app; simpl; lia).
  replace (Z.of_nat (length l) + 1)%Z with (Z.of_nat (S (length l))) by lia.
  rewrite slice_from.
  rewrite firstn_app, firstn_all, Nat.sub_diag. simpl firstn. rewrite app_nil_r.
  replace (S (length l)) with (length (l ++ [LF])) by (rewrite length_app; simpl; lia).
  replace (l ++ LF :: r) with ((l ++ [LF]) ++ r) by (rewrite <- app_assoc; reflexivity).
  rewrite skipn_app, skipn_all, Nat.sub_diag. simpl.
  unfold strip_cr. rewrite slice_drop_last. reflexivity.
Qed.

Lemma next_line_inv (b line rest : text) :
  next_line b = Some (line, rest) ->
  exists l, b = l ++ LF :: rest /\ ~ In LF l /\ line = strip_cr l.
Proof.
  intros H. destruct (first_occurrence b LF) as [Hn|(l & r & -> & Hl)].
  - rewrite next_line_none in H by assumption. discriminate.
  - rewrite next_line_app in H by assumption. inversion H; subst.
    exists l. auto.
Qed.

Lemma next_line_none_inv (b : text) : next_line b = None -> ~ In LF b.
Proof.
  intros H. destruct (first_occurrence b LF) as [Hn|(l & r & -> & Hl)]; [assumption|].
  rewrite next_line_app in H by assumption. discriminate.
Qed.

Lemma split_nonempty (s : text) (c : char) : split s c <> [].
Proof.
  destruct s as [|x s]; simpl; [discriminate|].
  destruct (N.eqb x c); [discriminate|].
  destruct (split s c); discriminate.
Qed.

Lemma split_no_sep (s : text) (c : char) : ~ In c s -> split s c = [s].
Proof.
  induction s as [|x s IH]; simpl; intros Hn; [reflexivity|].
  destruct (N.eqb_spec x c) as [->|_]; [tauto|].
  rewrite IH by tauto. reflexivity.
Qed.

Lemma split_app (l r : text) (c : char) :
  ~ In c l -> split (l ++ c :: r) c = l :: split r c.
Proof.
  induction l as [|x l IH]; simpl; intros Hn.
  - now rewrite N.eqb_refl.
  - destruct (N.eqb_spec x c) as [->|_]; [tauto|].
    rewrite IH by tauto. reflexivity.
Qed.

Lemma split_app_sep (a r : text) (c : char) :
  split (a ++ c :: r) c = split a c ++ split r c.
Proof.
  induction a as [|x a IH]; simpl.
  - now rewrite N.eqb_refl.
  - destruct (N.eqb x c); [now rewrite IH|].
    rewrite IH. destruct (split a c) eqn:E; [now destruct (split_nonempty a c)|].
    reflexivity.
Qed.

(** A text that is empty or ends with a line feed splits into its lines
    and one empty piece; the piece of an unterminated remainder takes the
    place of the empty piece. *)
Lemma split_remainder (pre r : text) :
  pre = [] \/ (exists p, pre = p ++ [LF]) ->
  ~ In LF r ->
  exists init,
    split pre LF = init ++ [[]] /\ split (pre ++ r) LF = init ++ [r].
Proof.
  intros [->|[p ->]] Hr.
  - exists []. simpl. now rewrite split_no_sep.
  - exists (split p LF). rewrite <- app_assoc. simpl.
    rewrite (split_app_sep p r), (split_app_sep p []).
    rewrite (@split_no_sep r LF) by assumption. split; reflexivity.
Qed.

Lemma split_single_empty (s : text) (c : char) : split s c = [[]] -> s = [].
Proof.
  destruct s as [|x s]; [reflexivity|]. simpl.
  destruct (N.eqb x c); [intros H; inversion H; now destruct (split_nonempty s c)|].
  destruct (split s c); discriminate.
Qed.

Lemma split_pieces_forall (P : char -> bool) (s : text) (c : char) :
  forallb P s = true -> Forall (fun piece => forallb P piece = true) (split s c).
Proof.
  induction s as [|x s IH]; simpl; intros H.
  - repeat constructor.
  - apply andb_true_iff in H as [Hx Hs]. specialize (IH Hs).
    destruct (N.eqb x c).
    + constructor; [reflexivity|assumption].
    + destruct (split s c) as [|h t]; [repeat constructor; simpl; now rewrite Hx|].
      inversion IH; subst. constructor; [simpl; now rewrite Hx|assumption].
Qed.

Lemma startsWith_app_other (x p : text) (c : char) :
  ~ In c p -> startsWith (x ++ [c]) p = startsWith x p.
Proof.
  revert x. induction p as [|b p IH]; intros x Hn.
  - now destruct x.
  - destruct x as [|a x]; simpl.
    + destruct (N.eqb_spec c b) as [->|_]; [simpl in Hn; tauto|reflexivity].
    + rewrite IH by (simpl in Hn; tauto). reflexivity.
Qed.

Lemma startsWith_inv (s p : text) :
  startsWith s p = true -> s = p ++ skipn (length p) s.
Proof.
  revert s. induction p as [|b p IH]; intros s H; [reflexivity|].
  destruct s as [|a s]; [discriminate|]. simpl in H.
  apply andb_true_iff in H as [Hab Hs]. apply N.eqb_eq in Hab. subst.
  simpl. f_equal. now apply IH.
Qed.

Lemma strip_cr_cases (l : text) :
  strip_cr l = l \/ l = strip_cr l ++ [CR].
Proof.
  unfold strip_cr, endsWith.
  destruct (rev l) as [|c t] eqn:E; simpl; [now left|].
  destruct (N.eqb_spec c CR) as [->|_]; simpl; [|now left].
  right. assert (Hl : l = rev t ++ [CR]).
  { rewrite <- (rev_involutive l), E. reflexivity. }
  rewrite Hl at 2. now rewrite removelast_last.
Qed.

Lemma strip_cr_no_lf (l : text) : ~ In LF l -> ~ In LF (strip_cr l).
Proof.
  intros H. destruct (strip_cr_cases l) as [-> | E]; [assumption|].
  intros Hin. apply H. rewrite E. apply in_or_app. now left.
Qed.

Lemma trimStart_nil_iff (s : text) :
  trimStart s = [] <-> forallb isWhiteSpace s = true.
Proof.
  induction s as [|c s IH]; simpl; [tauto|].
  destruct (isWhiteSpace c); simpl; [assumption|].
  split; discriminate.
Qed.

Lemma trimStart_head (s : text) :
  trimStart s = [] \/ exists c r, trimStart s = c :: r /\ isWhiteSpace c = false.
Proof.
  induction s as [|c s IH]; simpl; [now left|].
  destruct (isWhiteSpace c) eqn:E; [assumption|].
  right. now exists c, s.
Qed.

Lemma trimStart_app_ws (s : text) (c : char) :
  isWhiteSpace c = true ->
  trimStart (s ++ [c]) =
  if forallb isWhiteSpace s then [] else trimStart s ++ [c].
Proof.
  intros Hc. induction s as [|x s IH]; simpl.
  - now rewrite Hc.
  - destruct (isWhiteSpace x); simpl; [assumption|reflexivity].
Qed.

Lemma trimEnd_app_ws (s : text) (c : char) :
  isWhiteSpace c = true -> trimEnd (s ++ [c]) = trimEnd s.
Proof.
  intros Hc. unfold trimEnd. rewrite rev_app_distr. simpl. now rewrite Hc.
Qed.

Lemma trim_app_ws (s : text) (c : char) :
  isWhiteSpace c = true -> trim (s ++ [c]) = trim s.
Proof.
  intros Hc. unfold trim. rewrite trimStart_app_ws by assumption.
  destruct (forallb isWhiteSpace s) eqn:E.
  - apply trimStart_nil_iff in E. now rewrite E.
  - now apply trimEnd_app_ws.
Qed.

Lemma trim_nil_iff (s : text) :
  trim s = [] <-> forallb isWhiteSpace s = true.
Proof.
  rewrite <- trimStart_nil_iff. unfold trim, trimEnd. split.
  - intros H. destruct (trimStart_head s) as [E|(c & r & E & Hc)]; [assumption|].
    rewrite E in H. simpl in H.
    assert (H' : trimStart (rev r ++ [c]) = []).
    { now rewrite <- (rev_involutive (trimStart (rev r ++ [c]))), H. }
    exfalso. clear -H' Hc. induction (rev r) as [|y t IH]; simpl in H'.
    + rewrite Hc in H'. discriminate.
    + destruct (isWhiteSpace y); [auto|discriminate].
  - intros ->. reflexivity.
Qed.

Lemma trim_nonempty_head (c : char) (s : text) :
  isWhiteSpace c = false -> trim (c :: s) <> [].
Proof.
  intros Hc H. apply trim_nil_iff in H. simpl in H. now rewrite Hc in H.
Qed.

Lemma text_eqb_eq (a b : text) : text_eqb a b = true <-> a = b.
Proof.
  unfold text_eqb. destruct (text_eq_dec a b); split; congruence.
Qed.

Lemma text_eqb_neq (a b : text) : text_eqb a b = false <-> a <> b.
Proof.
  unfold text_eqb. destruct (text_eq_dec a b); split; congruence.
Qed.

Lemma text_eqb_trim_app_cr (x : text) :
  text_eqb (trim (x ++ [CR])) [] = text_eqb (trim x) [].
Proof. now rewrite trim_app_ws. Qed.

Lemma lit_data : lit "data: " = [100; 97; 116; 97; 58; 32]%N.
Proof. reflexivity. Qed.

Lemma lit_colon : lit ":" = [58]%N.
Proof. reflexivity. Qed.

(** A data line is neither empty, nor a comment, nor blank. *)
Lemma data_line_facts (line : text) :
  startsWith line (lit "data: ") = true ->
  text_eqb line [] = false /\ startsWith line (lit ":") = false
  /\ text_eqb (trim line) [] = false /\ 6 <= length line.
Proof.
  intros H. pose proof (startsWith_inv _ _ H) as E.
  rewrite lit_data in E. simpl in E. rewrite E.
  split; [|split; [|split]].
  - apply text_eqb_neq. discriminate.
  - reflexivity.
  - apply text_eqb_neq. now apply trim_nonempty_head.
  - simpl. lia.
Qed.

Lemma payload_app_cr (x : text) :
  startsWith x (lit "data: ") = true ->
  trim (slice (x ++ [CR]) 6 None) = trim (slice x 6 None).
Proof.
  intros H. destruct (data_line_facts _ H) as (_ & _ & _ & Hlen).
  change 6%Z with (Z.of_nat 6). rewrite !slice_from.
  rewrite skipn_app. replace (6 - length x) with 0 by lia.
  simpl (skipn 0 _). now apply trim_app_ws.
Qed.

(* ------------------------------------------------------------------ *)
(** ** Facts about the line reassembler *)


Lemma feed_fuel_stable (f1 f2 : nat) (b : text) :
  length b < f1 -> length b < f2 -> feed_fuel f1 b = feed_fuel f2 b.
Proof.
  revert f2 b. induction f1 as [|f1 IH]; intros f2 b H1 H2; [lia|].
  destruct f2 as [|f2]; [lia|]. simpl.
  destruct (next_line b) as [[line rest]|] eqn:E; [|reflexivity].
  apply next_line_inv in E as (l & -> & _ & _).
  rewrite length_app in H1, H2. simpl in H1, H2.
  rewrite (IH f2 rest) by lia. reflexivity.
Qed.

Lemma reassemble_rest (b : text) : ~ In LF b -> reassemble b = ([], b).
Proof.
  intros H. unfold reassemble. simpl. now rewrite next_line_none.
Qed.

Lemma reassemble_line (l r : text) :
  ~ In LF l ->
  reassemble (l ++ LF :: r)
  = (strip_cr l :: fst (reassemble r), snd (reassemble r)).
Proof.
  intros H. unfold reassemble at 1. simpl.
  rewrite next_line_app by assumption.
  rewrite (@feed_fuel_stable (length (l ++ LF :: r)) (S (length r)) r)
    by (rewrite ?length_app; simpl; lia).
  fold (reassemble r). now destruct (reassemble r).
Qed.

(** What the reassembler keeps holds no line feed. *)
Lemma reassemble_keeps_partial (b : text) : ~ In LF (snd (reassemble b)).
Proof.
  remember (length b) as n eqn:En. revert b En.
  induction n as [n IH] using lt_wf_ind. intros b En.
  destruct (first_occurrence b LF) as [Hn|(l & r & -> & Hl)].
  - now rewrite reassemble_rest.
  - rewrite reassemble_line by assumption. simpl.
    apply (IH (length r)); [|reflexivity].
    rewrite En, length_app. simpl. lia.
Qed.

(** Feeding text in two parts emits the lines of the whole. *)
Lemma reassemble_app (b x : text) :
  reassemble (b ++ x)
  = (fst (reassemble b) ++ fst (reassemble (snd (reassemble b) ++ x)),
     snd (reassemble (snd (reassemble b) ++ x))).
Proof.
  remember (length b) as n eqn:En. revert b En.
  induction n as [n IH] using lt_wf_ind. intros b En.
  destruct (first_occurrence b LF) as [Hn|(l & r & -> & Hl)].
  - rewrite (reassemble_rest b Hn). simpl. now destruct (reassemble (b ++ x)).
  - rewrite <- app_assoc. simpl.
    rewrite !reassemble_line by assumption. simpl.
    rewrite (IH (length r) ltac:(rewrite En, length_app; simpl; lia)
               r eq_refl).
    reflexivity.
Qed.


(** The carriage return is held back with the pending text, and the late
    line feed emits the line once. *)
Example crlf_split_example :
  feed [] (lit "data: x" ++ [CR]) = ([], lit "data: x" ++ [CR])
  /\ feed (lit "data: x" ++ [CR]) ([LF] ++ lit "data: y" ++ [LF])
     = ([lit "data: x"; lit "data: y"], []).
Proof. split; reflexivity. Qed.

(* ------------------------------------------------------------------ *)
(** ** Facts about the loop body and the flush *)

Section DriverFacts.

Context {platform : Platform}.

Lemma flush_raw_frame (st : State) (raw : text) :
  flush_raw st raw =
  match frame_delta raw with
  | Some d => apply_delta d st
  | None => st
  end.
Proof.
  unfold flush_raw, frame_delta.
  destruct (text_eqb raw [] || startsWith raw (lit ":")
            || text_eqb (trim raw) []); [reflexivity|].
  destruct (negb (startsWith raw (lit "data: "))); [reflexivity|].
  cbv zeta.
  destruct (text_eqb (trim (slice raw 6 None)) (lit "[DONE]")); [reflexivity|].
  destruct (decode (trim (slice raw 6 None))); reflexivity.
Qed.

Lemma frame_delta_app_cr (x : text) :
  frame_delta (x ++ [CR]) = frame_delta x.
Proof.
  destruct x as [|a x]; [reflexivity|].
  unfold frame_delta.
  rewrite !startsWith_app_other, text_eqb_trim_app_cr.
  - change (text_eqb ((a :: x) ++ [CR]) []) with false.
    change (text_eqb (a :: x) []) with false.
    destruct (false || startsWith (a :: x) (lit ":")
              || text_eqb (trim (a :: x)) []); [reflexivity|].
    destruct (startsWith (a :: x) (lit "data: ")) eqn:E; [|reflexivity].
    cbv zeta. now rewrite payload_app_cr.
  - rewrite lit_data. simpl. intuition discriminate.
  - rewrite lit_colon. simpl. intuition discriminate.
Qed.

Lemma frame_delta_strip (raw : text) :
  frame_delta (strip_cr raw) = frame_delta raw.
Proof.
  destruct (strip_cr_cases raw) as [->|E]; [reflexivity|].
  rewrite E at 2. now rewrite frame_delta_app_cr.
Qed.

Lemma sentinel_line_strip (raw : text) :
  sentinel_line (strip_cr raw) = sentinel_line raw.
Proof.
  destruct (strip_cr_cases raw) as [->|E]; [reflexivity|].
  rewrite E at 2. unfold sentinel_line.
  rewrite startsWith_app_other by (rewrite lit_data; simpl; intuition discriminate).
  destruct (startsWith (strip_cr raw) (lit "data: ")) eqn:D; [|reflexivity].
  now rewrite payload_app_cr.
Qed.

(** The three ways in which one pass through the loop body ends,
    compared with what the flush does for the same line. *)
Lemma loop_body_cases (line : text) (st : State) :
  (loop_body line st = Continue (flush_raw st line)
   /\ sentinel_line line = false)
  \/ (loop_body line st = Break (set_streamDone true st)
      /\ sentinel_line line = true /\ frame_delta line = None)
  \/ (loop_body line st = Break (set_textBuffer (line ++ [LF] ++ textBuffer st) st)
      /\ sentinel_line line = false /\ frame_delta line = None
      /\ startsWith line (lit "data: ") = true
      /\ decode (trim (slice line 6 None)) = Thrown).
Proof.
  unfold loop_body, flush_raw, frame_delta,
    sentinel_line.
  destruct (startsWith line (lit "data: ")) eqn:D.
  - destruct (data_line_facts _ D) as (E1 & E2 & E3 & _).
    rewrite E1, E2, E3. simpl. 
    destruct (text_eqb (trim (slice line 6 None)) (lit "[DONE]")).
    + right; left. auto.
    + destruct (decode (trim (slice line 6 None))); auto.
      right; right. auto.
  - left. rewrite <- !orb_assoc.
    destruct (startsWith line (lit ":") || text_eqb (trim line) []) eqn:E.
    + rewrite orb_true_r. auto.
    + assert (text_eqb line [] = false) as ->.
      { apply orb_false_iff in E as [_ E]. apply text_eqb_neq.
        apply text_eqb_neq in E. intros ->. now apply E. }
      cbn [orb negb]. auto.
Qed.

Lemma flush_raw_locals (st : State) (raw : text) :
  textBuffer (flush_raw st raw) = textBuffer st
  /\ streamDone (flush_raw st raw) = streamDone st
  /\ isLoading (flush_raw st raw) = isLoading st
  /\ toasts (flush_raw st raw) = toasts st.
Proof.
  rewrite flush_raw_frame. destruct (frame_delta raw); repeat split.
Qed.

Lemma flush_raw_strip (st : State) (raw : text) :
  flush_raw st (strip_cr raw) = flush_raw st raw.
Proof. now rewrite !flush_raw_frame, frame_delta_strip. Qed.

Lemma apply_delta_chat (d : text) (st st' : State) :
  chat st = chat st' -> chat (apply_delta d st) = chat (apply_delta d st').
Proof.
  unfold chat, apply_delta. destruct st, st'; simpl.
  intros H; inversion H; subst. reflexivity.
Qed.

Lemma flush_raw_chat (raw : text) (st st' : State) :
  chat st = chat st' -> chat (flush_raw st raw) = chat (flush_raw st' raw).
Proof.
  intros H. rewrite !flush_raw_frame.
  destruct (frame_delta raw); [now apply apply_delta_chat|assumption].
Qed.

Lemma fold_flush_chat (pieces : list text) (st st' : State) :
  chat st = chat st' ->
  chat (fold_left flush_raw pieces st) = chat (fold_left flush_raw pieces st').
Proof.
  revert st st'. induction pieces as [|raw pieces IH]; intros st st' H;
    [assumption|].
  simpl. apply IH. now apply flush_raw_chat.
Qed.

Lemma flush_all_chat (b : text) (st st' : State) :
  chat st = chat st' -> chat (flush_all b st) = chat (flush_all b st').
Proof. apply fold_flush_chat. Qed.

Lemma flush_all_line (l r : text) (st : State) :
  ~ In LF l -> flush_all (l ++ LF :: r) st = flush_all r (flush_raw st l).
Proof.
  intros H. unfold flush_all. now rewrite split_app.
Qed.

Lemma flush_all_locals (b : text) (st : State) :
  textBuffer (flush_all b st) = textBuffer st
  /\ streamDone (flush_all b st) = streamDone st
  /\ isLoading (flush_all b st) = isLoading st
  /\ toasts (flush_all b st) = toasts st.
Proof.
  unfold flush_all. revert st.
  induction (split b LF) as [|raw pieces IH]; intros st; [repeat split|].
  simpl. destruct (IH (flush_raw st raw)) as (-> & -> & -> & ->).
  apply flush_raw_locals.
Qed.

(** The fuel of [line_loop] is enough: more fuel changes nothing. *)
Lemma line_loop_fuel_stable (f1 f2 : nat) (st : State) :
  length (textBuffer st) < f1 -> length (textBuffer st) < f2 ->
  line_loop_fuel f1 st = line_loop_fuel f2 st.
Proof.
  revert f2 st. induction f1 as [|f1 IH]; intros f2 st H1 H2; [lia|].
  destruct f2 as [|f2]; [lia|]. simpl.
  destruct (next_line (textBuffer st)) as [[line rest]|] eqn:E; [|reflexivity].
  apply next_line_inv in E as (l & Eb & _ & ->).
  assert (Hlen : length rest < length (textBuffer st)).
  { rewrite Eb, length_app. simpl. lia. }
  destruct (loop_body_cases (strip_cr l) (set_textBuffer rest st))
    as [[-> _]|[[-> _]|[-> _]]]; try reflexivity.
  apply IH.
  - destruct (flush_raw_locals (set_textBuffer rest st) (strip_cr l)) as [-> _].
    simpl. lia.
  - destruct (flush_raw_locals (set_textBuffer rest st) (strip_cr l)) as [-> _].
    simpl. lia.
Qed.

(** The inner loop as the source writes it. *)
Lemma line_loop_equation (st : State) :
  line_loop st =
  match next_line (textBuffer st) with
  | None => st
  | Some (line, rest) =>
      match loop_body line (set_textBuffer rest st) with
      | Continue st => line_loop st
      | Break st => st
      end
  end.
Proof.
  unfold line_loop at 1. simpl.
  destruct (next_line (textBuffer st)) as [[line rest]|] eqn:E; [|reflexivity].
  apply next_line_inv in E as (l & Eb & _ & ->).
  destruct (loop_body_cases (strip_cr l) (set_textBuffer rest st))
    as [[-> _]|[[-> _]|[-> _]]]; try reflexivity.
  apply line_loop_fuel_stable.
  - destruct (flush_raw_locals (set_textBuffer rest st) (strip_cr l)) as [-> _].
    simpl. rewrite Eb, length_app. simpl. lia.
  - lia.
Qed.

(** Induction along the passes of the inner loop.  [l] is the text up to
    the first line feed of the buffer and [rest] the text after it. *)
Lemma line_loop_ind (P : State -> State -> Prop) :
  (forall st, ~ In LF (textBuffer st) -> P st st) ->
  (forall st l rest st',
      textBuffer st = l ++ LF :: rest -> ~ In LF l ->
      sentinel_line l = false ->
      P (flush_raw (set_textBuffer rest st) l) st' -> P st st') ->
  (forall st l rest,
      textBuffer st = l ++ LF :: rest -> ~ In LF l ->
      sentinel_line l = true -> frame_delta l = None ->
      P st (set_streamDone true (set_textBuffer rest st))) ->
  (forall st l rest,
      textBuffer st = l ++ LF :: rest -> ~ In LF l ->
      sentinel_line l = false -> frame_delta l = None ->
      startsWith (strip_cr l) (lit "data: ") = true ->
      decode (trim (slice (strip_cr l) 6 None)) = Thrown ->
      P st (set_textBuffer (strip_cr l ++ LF :: rest) st)) ->
  forall st, P st (line_loop st).
Proof.
  intros Hstop Hcont Hdone Hretry st.
  remember (length (textBuffer st)) as n eqn:En.
  revert st En. induction n as [n IH] using lt_wf_ind. intros st En.
  rewrite line_loop_equation.
  destruct (next_line (textBuffer st)) as [[line rest]|] eqn:E.
  - apply next_line_inv in E as (l & Eb & Hl & ->).
    destruct (loop_body_cases (strip_cr l) (set_textBuffer rest st))
      as [[-> S]|[[-> [S F]]|[-> (S & F & D & T)]]].
    + rewrite sentinel_line_strip in S. rewrite flush_raw_strip.
      apply (Hcont st l rest); auto.
      apply (IH (length rest)).
      * rewrite En, Eb, length_app. simpl. lia.
      * destruct (flush_raw_locals (set_textBuffer rest st) l) as [-> _].
        reflexivity.
    + rewrite sentinel_line_strip in S. rewrite frame_delta_strip in F.
      now apply (Hdone st l rest).
    + rewrite sentinel_line_strip in S. rewrite frame_delta_strip in F.
      now apply (Hretry st l rest).
  - apply Hstop. now apply next_line_none_inv.
Qed.

Lemma sentinel_last_cons (l s : text) :
  sentinel_last (l :: split s LF) =
  if sentinel_line l
  then match split s LF with [[]] => true | _ => false end
  else sentinel_last (split s LF).
Proof.
  simpl. destruct (split s LF) eqn:E; [now destruct (split_nonempty s LF)|].
  reflexivity.
Qed.

Lemma chat_set_textBuffer (b : text) (st : State) :
  chat (set_textBuffer b st) = chat st.
Proof. reflexivity. Qed.

Lemma chat_set_streamDone (d : bool) (st : State) :
  chat (set_streamDone d st) = chat st.
Proof. reflexivity. Qed.

(** Flushing what the inner loop leaves, followed by any further text,
    gives the conversation that flushing the whole buffer gives. *)
Lemma flush_after_line_loop (st : State) :
  forall x,
    chat (flush_all (textBuffer (line_loop st) ++ x) (line_loop st))
    = chat (flush_all (textBuffer st ++ x) st).
Proof.
  apply (line_loop_ind
           (fun st st' => forall x,
                chat (flush_all (textBuffer st' ++ x) st')
                = chat (flush_all (textBuffer st ++ x) st))).
  - reflexivity.
  - intros s l rest st' Eb Hl _ IH x. rewrite IH, Eb.
    destruct (flush_raw_locals (set_textBuffer rest s) l) as [-> _].
    rewrite <- app_assoc. simpl. rewrite flush_all_line by assumption.
    apply flush_all_chat, flush_raw_chat. reflexivity.
  - intros s l rest Eb Hl _ F x. rewrite Eb.
    rewrite <- app_assoc. simpl. rewrite flush_all_line by assumption.
    rewrite (flush_raw_frame s l), F. simpl.
    apply flush_all_chat. reflexivity.
  - intros s l rest Eb Hl _ F _ _ x. rewrite Eb. simpl.
    rewrite <- !app_assoc. simpl.
    rewrite !flush_all_line by auto using strip_cr_no_lf.
    rewrite flush_raw_strip, !flush_raw_frame, F.
    apply flush_all_chat. reflexivity.
Qed.

(** When the inner loop stops at the sentinel of a stream that ends with
    it, nothing is left in the buffer and nothing follows. *)
Lemma line_loop_done_last (st : State) :
  streamDone st = false -> streamDone (line_loop st) = true ->
  forall x, sentinel_last (split (textBuffer st ++ x) LF) = true ->
            textBuffer (line_loop st) = [] /\ x = [].
Proof.
  apply (line_loop_ind
           (fun st st' =>
              streamDone st = false -> streamDone st' = true ->
              forall x, sentinel_last (split (textBuffer st ++ x) LF) = true ->
                        textBuffer st' = [] /\ x = [])).
  - congruence.
  - intros s l rest st' Eb Hl S IH D0 D1 x W. apply IH; auto.
    + destruct (flush_raw_locals (set_textBuffer rest s) l) as (_ & -> & _).
      assumption.
    + destruct (flush_raw_locals (set_textBuffer rest s) l) as [-> _].
      simpl. rewrite Eb, <- app_assoc in W. simpl in W.
      rewrite split_app, sentinel_last_cons, S in W by assumption. exact W.
  - intros s l rest Eb Hl S _ _ _ x W.
    rewrite Eb, <- app_assoc in W. simpl in W.
    rewrite split_app, sentinel_last_cons, S in W by assumption.
    destruct (split (rest ++ x) LF) as [|[|] [|]] eqn:E; try discriminate.
    apply split_single_empty in E. apply app_eq_nil in E as [-> ->].
    now split.
  - intros s l rest _ _ _ _ _ _ D0 D1. simpl in D1. congruence.
Qed.

(** The inner loop keeps the sentinel at the end of the stream. *)
Lemma line_loop_sentinel_last (st : State) :
  forall x, sentinel_last (split (textBuffer st ++ x) LF) = true ->
            sentinel_last (split (textBuffer (line_loop st) ++ x) LF) = true.
Proof.
  apply (line_loop_ind
           (fun st st' =>
              forall x, sentinel_last (split (textBuffer st ++ x) LF) = true ->
                        sentinel_last (split (textBuffer st' ++ x) LF) = true)).
  - auto.
  - intros s l rest st' Eb Hl S IH x W. apply IH.
    destruct (flush_raw_locals (set_textBuffer rest s) l) as [-> _].
    simpl. rewrite Eb, <- app_assoc in W. simpl in W.
    rewrite split_app, sentinel_last_cons, S in W by assumption. exact W.
  - intros s l rest Eb Hl S _ x W. simpl.
    rewrite Eb, <- app_assoc in W. simpl in W.
    rewrite split_app, sentinel_last_cons, S in W by assumption.
    destruct (split (rest ++ x) LF) as [|[|] [|]] eqn:E; try discriminate.
    reflexivity.
  - intros s l rest Eb Hl S _ _ _ x W. simpl.
    rewrite Eb, <- app_assoc in W. simpl in W.
    rewrite split_app, sentinel_last_cons, S in W by assumption.
    rewrite <- app_assoc. simpl.
    rewrite split_app, sentinel_last_cons by auto using strip_cr_no_lf.
    now rewrite sentinel_line_strip, S.
Qed.

Lemma frame_delta_blank (raw : text) :
  trim raw = [] -> frame_delta raw = None.
Proof.
  intros H. unfold frame_delta. rewrite H.
  change (text_eqb [] []) with true. now rewrite orb_true_r.
Qed.

(** The guard of line 122 changes nothing: a buffer of white space only
    holds blank pieces only. *)
Lemma final_flush_unguarded (st : State) :
  final_flush st = flush_all (textBuffer st) st.
Proof.
  unfold final_flush, flush_all.
  destruct (text_eqb (trim (textBuffer st)) []) eqn:E; [|reflexivity].
  simpl. apply text_eqb_eq, trim_nil_iff in E.
  apply (split_pieces_forall _ _ LF) in E.
  induction E as [|raw pieces Hraw _ IH]; [reflexivity|].
  simpl. rewrite flush_raw_frame, frame_delta_blank; [exact IH|].
  now apply trim_nil_iff.
Qed.

Lemma read_loop_done (cs : list text) (e : ReadEnd) (st : State) :
  streamDone st = true -> read_loop cs e st = Normal st.
Proof. intros H. destruct cs; simpl; now rewrite H. Qed.

(** Reading a stream that ends with its sentinel, chunk by chunk, then
    flushing, gives the conversation that one flush over the whole
    stream gives. *)
Lemma read_loop_whole (cs : list text) :
  forall st,
    streamDone st = false ->
    sentinel_last (split (textBuffer st ++ concat cs) LF) = true ->
    exists st',
      read_loop cs TransportDone st = Normal st'
      /\ chat (final_flush st')
         = chat (flush_all (textBuffer st ++ concat cs) st).
Proof.
  induction cs as [|c cs IH]; intros st D W.
  - exists st. simpl. rewrite D, app_nil_r. split; [reflexivity|].
    now rewrite final_flush_unguarded.
  - simpl read_loop. rewrite D. unfold process_chunk.
    set (st0 := set_textBuffer (textBuffer st ++ c) st).
    simpl concat in *. rewrite app_assoc in *.
    change (textBuffer st ++ c) with (textBuffer st0) in W.
    assert (Hflush :
              chat (flush_all ((textBuffer st ++ c) ++ concat cs) st)
              = chat (flush_all (textBuffer (line_loop st0) ++ concat cs)
                                (line_loop st0))).
    { rewrite flush_after_line_loop. apply flush_all_chat. reflexivity. }
    rewrite Hflush.
    destruct (streamDone (line_loop st0)) eqn:D1.
    + exists (line_loop st0). split; [now apply read_loop_done|].
      destruct (line_loop_done_last st0 D D1 _ W) as [_ ->].
      now rewrite app_nil_r, final_flush_unguarded.
    + apply IH; [assumption|]. now apply line_loop_sentinel_last.
Qed.

Lemma final_text_tracks (st : State) :
  tracks_reply st -> final_text st = Some (assistantContent st).
Proof.
  intros [before E]. unfold shows_reply in E.
  unfold final_text. rewrite E, length_app. simpl.
  replace (length before + 1 - 1) with (length before) by lia.
  now rewrite nth_error_app2, Nat.sub_diag by lia.
Qed.

Lemma set_last_content_last (before : list Message) (c c' : text) :
  set_last_content c' (before ++ [mkMessage assistant c])
  = before ++ [mkMessage assistant c'].
Proof.
  unfold set_last_content. rewrite length_app. simpl.
  replace (length before + 1 - 1) with (length before) by lia.
  rewrite nth_error_app2, Nat.sub_diag by lia. simpl.
  now rewrite removelast_last.
Qed.

Lemma apply_delta_shows (before : list Message) (d : text) (st : State) :
  shows_reply before st -> shows_reply before (apply_delta d st).
Proof.
  unfold shows_reply, apply_delta. simpl. intros ->.
  apply set_last_content_last.
Qed.

Lemma flush_raw_shows (before : list Message) (raw : text) (st : State) :
  shows_reply before st -> shows_reply before (flush_raw st raw).
Proof.
  intros H. rewrite flush_raw_frame.
  destruct (frame_delta raw); [now apply apply_delta_shows|assumption].
Qed.

Lemma flush_all_shows (before : list Message) (b : text) (st : State) :
  shows_reply before st -> shows_reply before (flush_all b st).
Proof.
  unfold flush_all. revert st.
  induction (split b LF) as [|raw pieces IH]; intros st H; [assumption|].
  simpl. apply IH. now apply flush_raw_shows.
Qed.

Lemma line_loop_shows (before : list Message) (st : State) :
  shows_reply before st -> shows_reply before (line_loop st).
Proof.
  apply (line_loop_ind
           (fun st st' => shows_reply before st -> shows_reply before st')).
  - auto.
  - intros s l rest st' _ _ _ IH H. apply IH.
    apply flush_raw_shows. exact H.
  - intros s l rest _ _ _ _ H. exact H.
  - intros s l rest _ _ _ _ _ _ H. exact H.
Qed.

Lemma read_loop_shows (before : list Message) (cs : list text) (e : ReadEnd) :
  forall st,
    shows_reply before st ->
    shows_reply before (completion_state (read_loop cs e st)).
Proof.
  induction cs as [|c cs IH]; intros st H; simpl.
  - destruct (streamDone st); [|destruct e]; exact H.
  - destruct (streamDone st); [exact H|].
    apply IH. unfold process_chunk. apply line_loop_shows. exact H.
Qed.

Lemma apply_delta_tracks (d : text) (st : State) :
  tracks_reply st -> tracks_reply (apply_delta d st).
Proof. intros [b H]. exists b. now apply apply_delta_shows. Qed.

Lemma flush_raw_tracks (raw : text) (st : State) :
  tracks_reply st -> tracks_reply (flush_raw st raw).
Proof. intros [b H]. exists b. now apply flush_raw_shows. Qed.

Lemma flush_all_tracks (b : text) (st : State) :
  tracks_reply st -> tracks_reply (flush_all b st).
Proof. intros [before H]. exists before. now apply flush_all_shows. Qed.

Lemma line_loop_tracks (st : State) :
  tracks_reply st -> tracks_reply (line_loop st).
Proof. intros [b H]. exists b. now apply line_loop_shows. Qed.

Lemma completion_tracks (cs : list text) (e : ReadEnd) (st : State) :
  tracks_reply st -> tracks_reply (completion_state (read_loop cs e st)).
Proof. intros [b H]. exists b. now apply read_loop_shows. Qed.

Lemma streaming_start_tracks (messages0 : list Message) (userMessage : text) :
  tracks_reply (streaming_start messages0 userMessage).
Proof. now exists (messages0 ++ [mkMessage user userMessage]). Qed.

Lemma streamChat_streaming (messages0 : list Message) (userMessage : text)
  (status : Z) (body : Body) :
  ok status = true ->
  streamChat messages0 userMessage (Response status (Some body))
  = setIsLoading false
      match read_loop (chunks body) (ending body)
                      (streaming_start messages0 userMessage) with
      | Normal st => final_flush st
      | Throw st => catch_block st
      end.
Proof.
  intros H. unfold streamChat, try_block. rewrite H. simpl negb. cbv iota.
  unfold streaming_start.
  match goal with
  | |- context [read_loop _ _ ?a] =>
      match goal with
      | |- context [read_loop _ _ ?b] =>
          lazymatch a with b => fail | _ => change a with b end
      end
  | _ => idtac
  end.
  destruct (read_loop _ _ _); reflexivity.
Qed.

Lemma streamChat_unsuccessful (messages0 : list Message) (userMessage : text)
  (status : Z) (body body' : option Body) :
  ok status = false ->
  streamChat messages0 userMessage (Response status body)
  = streamChat messages0 userMessage (Response status body').
Proof.
  intros H. unfold streamChat, try_block. now rewrite H.
Qed.

Lemma last_message_split (prev : list Message) (m : Message) :
  nth_error prev (length prev - 1) = Some m -> prev = removelast prev ++ [m].
Proof.
  intros H. destruct prev as [|x prev'] eqn:E; [discriminate|].
  rewrite <- E in *. assert (Hne : prev <> []) by (rewrite E; discriminate).
  destruct (exists_last Hne) as (l' & a & ->).
  rewrite length_app in H. simpl in H.
  replace (length l' + 1 - 1) with (length l') in H by lia.
  rewrite nth_error_app2, Nat.sub_diag in H by lia. simpl in H.
  inversion H; subst. now rewrite removelast_last.
Qed.

(** The updater touches the content of the last message only, and only
    when that message is the assistant's. *)
Lemma set_last_content_frame (c : text) (prev : list Message) :
  only_last_content_changes prev (set_last_content c prev)
  /\ (set_last_content c prev = prev \/ last_role prev = Some assistant).
Proof.
  unfold set_last_content, last_role, only_last_content_changes.
  destruct (nth_error prev (length prev - 1)) as [m|] eqn:E; [|now auto].
  destruct (Role_eqb (role m) assistant) eqn:R; [|now auto].
  pose proof (last_message_split _ _ E) as Hp.
  split; [|right; simpl; destruct (role m); [discriminate|reflexivity]].
  split; [|split].
  - rewrite Hp at 2. now rewrite !length_app.
  - now rewrite removelast_last.
  - rewrite Hp at 2. now rewrite !map_app.
Qed.

Lemma only_last_content_changes_refl (l : list Message) :
  only_last_content_changes l l.
Proof. now repeat split. Qed.

(** C10.  One pass through the body of the streaming loop, and one pass
    through the body of the final flush, leave the number of messages,
    every message before the last one and every role tag as they were;
    and they leave all of [messages] as it was unless the last message is
    the assistant's. *)
Theorem delta_application_frame (line : text) (st : State) :
  (only_last_content_changes
     (messages st) (messages (flow_state (loop_body line st)))
   /\ (messages (flow_state (loop_body line st)) = messages st
       \/ last_role (messages st) = Some assistant))
  /\ (only_last_content_changes (messages st) (messages (flush_raw st line))
      /\ (messages (flush_raw st line) = messages st
          \/ last_role (messages st) = Some assistant)).
Proof.
  assert (F : only_last_content_changes
                (messages st) (messages (flush_raw st line))
              /\ (messages (flush_raw st line) = messages st
                  \/ last_role (messages st) = Some assistant)).
  { rewrite flush_raw_frame. destruct (frame_delta line) as [d|].
    - apply set_last_content_frame.
    - split; [apply only_last_content_changes_refl|now left]. }
  split; [|exact F].
  destruct (loop_body_cases line st) as [[-> _]|[[-> _]|[-> _]]].
  - exact F.
  - split; [apply only_last_content_changes_refl|now left].
  - split; [apply only_last_content_changes_refl|now left].
Qed.

Lemma line_loop_flags (st : State) :
  isLoading (line_loop st) = isLoading st
  /\ toasts (line_loop st) = toasts st.
Proof.
  apply (line_loop_ind
           (fun st st' =>
              isLoading st' = isLoading st /\ toasts st' = toasts st)).
  - auto.
  - intros s l rest st' _ _ _ [-> ->].
    destruct (flush_raw_locals (set_textBuffer rest s) l) as (_ & _ & -> & ->).
    auto.
  - intros; auto.
  - intros; auto.
Qed.

Lemma read_loop_flags (cs : list text) (e : ReadEnd) :
  forall st,
    isLoading (completion_state (read_loop cs e st)) = isLoading st
    /\ toasts (completion_state (read_loop cs e st)) = toasts st.
Proof.
  induction cs as [|c cs IH]; intros st; simpl.
  - destruct (streamDone st); [|destruct e]; auto.
  - destruct (streamDone st); [auto|].
    destruct (IH (process_chunk st c)) as [-> ->].
    apply (line_loop_flags (set_textBuffer (textBuffer st ++ c) st)).
Qed.

(** C9.  Whatever the network does (a rejected fetch, any status, a
    missing body, a stream that ends or breaks), [streamChat] returns
    with the loading flag cleared.  The flag is raised on entry; the two
    early returns clear it themselves, every other path leaves the try
    block with the flag still raised and the finally block clears it. *)
Theorem loading_flag_cleared (messages0 : list Message) (userMessage : text)
  (net : FetchResult) :
  let entry :=
    mkState (messages0 ++ [mkMessage user userMessage]) true [] [] [] false in
  isLoading entry = true
  /\ isLoading (completion_state (try_block net entry))
     = match net with
       | FetchRejected => true
       | Response status _ => negb ((status =? 429) || (status =? 402))%Z
       end
  /\ isLoading (streamChat messages0 userMessage net) = false.
Proof.
  intros entry. split; [reflexivity|]. split; [|reflexivity].
  destruct net as [|status body]; [reflexivity|]. unfold try_block.
  destruct (ok status) eqn:Hok; simpl negb; cbv iota.
  - assert (H1 : (status =? 429)%Z = false).
    { apply Z.eqb_neq. intros ->. discriminate Hok. }
    assert (H2 : (status =? 402)%Z = false).
    { apply Z.eqb_neq. intros ->. discriminate Hok. }
    rewrite H1, H2. simpl. destruct body as [body|]; [|reflexivity].
    match goal with
    | |- context [read_loop ?cs ?e ?s] =>
        pose proof (read_loop_flags cs e s) as [F _];
        destruct (read_loop cs e s) as [st|st]; simpl in F |- *
    end.
    + rewrite final_flush_unguarded.
      destruct (flush_all_locals (textBuffer st) st) as (_ & _ & -> & _).
      exact F.
    + exact F.
  - destruct (status =? 429)%Z; [reflexivity|].
    destruct (status =? 402)%Z; reflexivity.
Qed.

Lemma flush_raw_grows (st : State) (raw : text) :
  tracks_reply st ->
  tracks_reply (flush_raw st raw)
  /\ (chat (flush_raw st raw) = chat st
      \/ exists d,
          startsWith raw (lit "data: ") = true
          /\ decode (trim (slice raw 6 None)) = Content d
          /\ assistantContent (flush_raw st raw) = assistantContent st ++ d).
Proof.
  intros H. split; [now apply flush_raw_tracks|].
  unfold flush_raw.
  destruct (text_eqb raw [] || startsWith raw (lit ":")
            || text_eqb (trim raw) []); [now left|].
  destruct (startsWith raw (lit "data: ")) eqn:D; [|now left]. simpl.
  destruct (text_eqb (trim (slice raw 6 None)) (lit "[DONE]")); [now left|].
  destruct (decode (trim (slice raw 6 None))) as [| |d] eqn:E;
    [now left|now left|].
  right. exists d. auto.
Qed.

Lemma grows_trans (a b c t u : text) :
  b = a ++ t -> c = b ++ u -> c = a ++ (t ++ u).
Proof. intros -> ->. now rewrite app_assoc. Qed.

Lemma flush_raw_appends (st : State) (raw : text) :
  exists d, assistantContent (flush_raw st raw) = assistantContent st ++ d.
Proof.
  rewrite flush_raw_frame. destruct (frame_delta raw) as [d|].
  - now exists d.
  - exists []. now rewrite app_nil_r.
Qed.

Lemma flush_all_appends (b : text) (st : State) :
  exists t, assistantContent (flush_all b st) = assistantContent st ++ t.
Proof.
  unfold flush_all. revert st.
  induction (split b LF) as [|raw pieces IH]; intros st; simpl.
  - exists []. now rewrite app_nil_r.
  - destruct (flush_raw_appends st raw) as [d Hd].
    destruct (IH (flush_raw st raw)) as [t Ht].
    exists (d ++ t). eapply grows_trans; eassumption.
Qed.

Lemma line_loop_appends (st : State) :
  exists t, assistantContent (line_loop st) = assistantContent st ++ t.
Proof.
  apply (line_loop_ind
           (fun st st' =>
              exists t, assistantContent st' = assistantContent st ++ t)).
  - intros s _. exists []. now rewrite app_nil_r.
  - intros s l rest st' _ _ _ [t Ht].
    destruct (flush_raw_appends (set_textBuffer rest s) l) as [d Hd].
    exists (d ++ t). eapply grows_trans; eassumption.
  - intros s l rest _ _ _ _. exists []. simpl. now rewrite app_nil_r.
  - intros s l rest _ _ _ _ _ _. exists []. simpl. now rewrite app_nil_r.
Qed.

Lemma read_loop_appends (cs : list text) (e : ReadEnd) :
  forall st,
  exists t,
    assistantContent (completion_state (read_loop cs e st))
    = assistantContent st ++ t.
Proof.
  induction cs as [|c cs IH]; intros st; simpl.
  - exists []. rewrite app_nil_r.
    destruct (streamDone st); [reflexivity|now destruct e].
  - destruct (streamDone st); [exists []; now rewrite app_nil_r|].
    destruct (IH (process_chunk st c)) as [t Ht].
    destruct (line_loop_appends (set_textBuffer (textBuffer st ++ c) st))
      as [u Hu].
    exists (u ++ t). eapply grows_trans; [exact Hu|exact Ht].
Qed.

Lemma final_flush_tracks (st : State) :
  tracks_reply st -> tracks_reply (final_flush st).
Proof.
  intros H. rewrite final_flush_unguarded. now apply flush_all_tracks.
Qed.

(** What a decoded delta is: the payload parsed, the content was found at
    [choices[0].delta.content] and was truthy, its conversion to a string
    did not fail, and the delta is that string; a content that is a
    string is a non-empty string. *)
Lemma decode_content (jsonStr : text) :
  match decode jsonStr with
  | Content d =>
      exists parsed c,
        JSON_parse jsonStr = Some parsed
        /\ delta_content parsed = Some (Some c)
        /\ ToBoolean (Some c) = true
        /\ ToString c = Some d
        /\ match c with JString s => s <> [] | _ => True end
  | NoContent | Thrown => True
  end.
Proof.
  unfold decode. destruct (JSON_parse jsonStr) as [parsed|] eqn:P; [|exact I].
  destruct (delta_content parsed) as [content|] eqn:C; [|exact I].
  destruct (ToBoolean content) eqn:T; [|exact I].
  destruct content as [c|]; [|exact I].
  destruct (ToString c) as [d|] eqn:S; [|exact I].
  exists parsed, c. split; [reflexivity|]. split; [assumption|].
  split; [assumption|]. split; [assumption|].
  destruct c; auto. simpl in T. intros ->. discriminate.
Qed.

(** C8.  From a state in which the last message shows the accumulated
    reply: one pass through the body of the streaming loop, or of the
    final flush, either leaves the conversation and the accumulated text
    as they were, or the line is a data line whose payload decoded to a
    delta and the new text is the old text followed by that delta; a
    chunk, the whole read loop and the final flush extend the text by a
    suffix; the last message keeps showing the accumulated text; and a
    decoded delta comes from a payload that parsed and whose content was
    truthy (non-empty, when it is a string) and could be converted to a
    string. *)
Theorem text_only_grows (st : State) :
  tracks_reply st ->
  (forall line,
      tracks_reply (flow_state (loop_body line st))
      /\ (chat (flow_state (loop_body line st)) = chat st
          \/ exists d,
              startsWith line (lit "data: ") = true
              /\ decode (trim (slice line 6 None)) = Content d
              /\ assistantContent (flow_state (loop_body line st))
                 = assistantContent st ++ d))
  /\ (forall raw,
         tracks_reply (flush_raw st raw)
         /\ (chat (flush_raw st raw) = chat st
             \/ exists d,
                 startsWith raw (lit "data: ") = true
                 /\ decode (trim (slice raw 6 None)) = Content d
                 /\ assistantContent (flush_raw st raw)
                    = assistantContent st ++ d))
  /\ (forall value,
         tracks_reply (process_chunk st value)
         /\ exists t,
             assistantContent (process_chunk st value)
             = assistantContent st ++ t)
  /\ (forall cs e,
         tracks_reply (completion_state (read_loop cs e st))
         /\ exists t,
             assistantContent (completion_state (read_loop cs e st))
             = assistantContent st ++ t)
  /\ (tracks_reply (final_flush st)
      /\ exists t,
          assistantContent (final_flush st) = assistantContent st ++ t)
  /\ (forall jsonStr,
         match decode jsonStr with
         | Content d =>
             exists parsed c,
               JSON_parse jsonStr = Some parsed
               /\ delta_content parsed = Some (Some c)
               /\ ToBoolean (Some c) = true
               /\ ToString c = Some d
               /\ match c with JString s => s <> [] | _ => True end
         | NoContent | Thrown => True
         end).
Proof.
  intros H. split; [|split; [|split; [|split; [|split]]]].
  - intros line.
    destruct (loop_body_cases line st) as [[-> _]|[[-> _]|[-> _]]].
    + now apply flush_raw_grows.
    + split; [exact H|now left].
    + split; [exact H|now left].
  - intros raw. now apply flush_raw_grows.
  - intros value. split.
    + unfold process_chunk. apply line_loop_tracks. exact H.
    + destruct (line_loop_appends
                  (set_textBuffer (textBuffer st ++ value) st)) as [t Ht].
      now exists t.
  - intros cs e. split; [now apply completion_tracks|apply read_loop_appends].
  - split; [now apply final_flush_tracks|].
    rewrite final_flush_unguarded. apply flush_all_appends.
  - apply decode_content.
Qed.

Lemma flush_all_remainder (st : State) (pre residual d : text) :
  pre = [] \/ (exists p, pre = p ++ [LF]) ->
  ~ In LF residual ->
  frame_delta residual = Some d ->
  chat (flush_all (pre ++ residual) st)
  = chat (apply_delta d (flush_all pre st)).
Proof.
  intros Hpre Hr F.
  destruct (split_remainder _ _ Hpre Hr) as (init & E1 & E2).
  unfold flush_all. rewrite E1, E2, !fold_left_app. simpl.
  rewrite (flush_raw_frame _ residual), F.
  now rewrite (flush_raw_frame _ []), frame_delta_blank.
Qed.

Lemma frame_delta_data (raw d : text) :
  startsWith raw (lit "data: ") = true ->
  trim (slice raw 6 None) <> lit "[DONE]" ->
  decode (trim (slice raw 6 None)) = Content d ->
  frame_delta raw = Some d.
Proof.
  intros D S E. unfold frame_delta.
  destruct (data_line_facts _ D) as (-> & -> & -> & _). rewrite D. simpl.
  apply text_eqb_neq in S. now rewrite S, E.
Qed.

(** C6.  The transport has signalled completion and the read loop has
    left the state [st], whose buffer ends with a data line that has no
    line feed after it ([pre] is the text before it: empty, or lines that
    the loop left behind).  Then the final flush decodes that line and
    appends its delta after whatever the flush of [pre] produced, and the
    assistant message that [streamChat] leaves shows the result. *)
Theorem residual_line_flushed (messages0 : list Message) (userMessage : text)
  (status : Z) (received : list text) (st : State) (pre residual d : text) :
  ok status = true ->
  read_loop received TransportDone (streaming_start messages0 userMessage)
  = Normal st ->
  textBuffer st = pre ++ residual ->
  pre = [] \/ (exists p, pre = p ++ [LF]) ->
  ~ In LF residual ->
  startsWith residual (lit "data: ") = true ->
  trim (slice residual 6 None) <> lit "[DONE]" ->
  decode (trim (slice residual 6 None)) = Content d ->
  let before := assistantContent (final_flush (set_textBuffer pre st)) in
  assistantContent (final_flush st) = before ++ d
  /\ final_text
       (streamChat messages0 userMessage
                   (Response status (Some (mkBody received TransportDone))))
     = Some (before ++ d).
Proof.
  intros Hok R Eb Hpre Hr D S E before.
  assert (T : tracks_reply st).
  { pose proof (completion_tracks received TransportDone _
                  (streaming_start_tracks messages0 userMessage)) as T.
    now rewrite R in T. }
  assert (A : assistantContent (final_flush st) = before ++ d).
  { unfold before. rewrite !final_flush_unguarded, Eb. simpl textBuffer.
    pose proof (flush_all_remainder st pre residual d Hpre Hr
                  (frame_delta_data _ _ D S E)) as C.
    apply (f_equal snd) in C. simpl in C. rewrite C. f_equal.
    pose proof (flush_all_chat pre (set_textBuffer pre st) st eq_refl) as C'.
    now apply (f_equal snd) in C'. }
  split; [exact A|].
  rewrite streamChat_streaming by assumption. simpl chunks. simpl ending.
  rewrite R.
  change (final_text (final_flush st) = Some (before ++ d)).
  rewrite <- A. apply final_text_tracks. now apply final_flush_tracks.
Qed.

Lemma flush_raw_set_textBuffer (b raw : text) (st : State) :
  flush_raw (set_textBuffer b st) raw = set_textBuffer b (flush_raw st raw).
Proof.
  rewrite !flush_raw_frame. now destruct (frame_delta raw).
Qed.

Lemma fold_flush_set_textBuffer (b : text) (pieces : list text) :
  forall st,
    fold_left flush_raw pieces (set_textBuffer b st)
    = set_textBuffer b (fold_left flush_raw pieces st).
Proof.
  induction pieces as [|raw pieces IH]; intros st; [reflexivity|].
  simpl. now rewrite flush_raw_set_textBuffer, IH.
Qed.

(** The inner loop is the reassembler followed by the frame processing:
    when no line of the batch leaves the loop early, the loop handles
    the lines that [reassemble] emits, in order, and keeps the text that
    [reassemble] keeps. *)
Lemma line_loop_runs_reassembler (st : State) :
  Forall (fun line => forall s, exists s', loop_body line s = Continue s')
         (fst (reassemble (textBuffer st))) ->
  line_loop st
  = set_textBuffer (snd (reassemble (textBuffer st)))
      (fold_left flush_raw (fst (reassemble (textBuffer st))) st).
Proof.
  remember (length (textBuffer st)) as n eqn:En. revert st En.
  induction n as [n IH] using lt_wf_ind. intros st En H.
  rewrite line_loop_equation.
  destruct (first_occurrence (textBuffer st) LF) as [Hn|(l & r & Eb & Hl)].
  - rewrite next_line_none by assumption.
    rewrite reassemble_rest by assumption. now destruct st.
  - assert (Hlen : length r < n)
      by (rewrite En, Eb, length_app; simpl; lia).
    clear En. rewrite Eb in *. rewrite next_line_app by assumption.
    rewrite reassemble_line in * by assumption. simpl fst in *. simpl snd.
    inversion H as [|line lines Hline Hlines]; subst.
    destruct (Hline (set_textBuffer r st)) as [s' Hs'].
    destruct (loop_body_cases (strip_cr l) (set_textBuffer r st))
      as [[E _]|[[E _]|[E _]]]; rewrite E in Hs'; try discriminate.
    rewrite E. simpl fold_left.
    rewrite flush_raw_set_textBuffer.
    rewrite (IH (length r)).
    + simpl textBuffer. rewrite fold_flush_set_textBuffer.
      now destruct (fold_left flush_raw (fst (reassemble r)) _).
    + exact Hlen.
    + reflexivity.
    + exact Hlines.
Qed.

(** *** Where the code departs from the specification *)

(** The streaming loop stops at the sentinel line: the text after it stays
    in the buffer, unprocessed. *)
Lemma line_loop_stops_at_sentinel (st : State) (l rest : text) :
  textBuffer st = l ++ LF :: rest -> ~ In LF l -> sentinel_line l = true ->
  line_loop st = set_streamDone true (set_textBuffer rest st).
Proof.
  intros Eb Hl S. rewrite line_loop_equation, Eb, next_line_app by assumption.
  rewrite <- sentinel_line_strip in S.
  destruct (loop_body_cases (strip_cr l) (set_textBuffer rest st))
    as [[_ S']|[[-> _]|[_ [S' _]]]]; [congruence|reflexivity|congruence].
Qed.

(** The final flush does not: it goes on with the pieces that follow a
    sentinel line. *)
Lemma flush_all_passes_sentinel (st : State) (l rest : text) :
  ~ In LF l -> sentinel_line l = true ->
  flush_all (l ++ LF :: rest) st = flush_all rest st.
Proof.
  intros Hl S. rewrite flush_all_line by assumption. f_equal.
  rewrite flush_raw_frame. unfold frame_delta, sentinel_line in *.
  apply andb_true_iff in S as [D S].
  destruct (data_line_facts _ D) as (-> & -> & -> & _).
  now rewrite D, S.
Qed.

(** So the deltas of the lines that arrive in the same chunk after the
    sentinel line are applied by the final flush. *)
Lemma text_after_sentinel_is_flushed (st : State) (l rest : text)
  (e : ReadEnd) :
  streamDone st = false -> textBuffer st = [] ->
  ~ In LF l -> sentinel_line l = true ->
  exists st',
    read_loop [l ++ LF :: rest] e st = Normal st'
    /\ chat (final_flush st') = chat (flush_all rest st).
Proof.
  intros D Eb Hl S.
  exists (set_streamDone true (set_textBuffer rest st)).
  simpl. rewrite D. unfold process_chunk.
  rewrite (line_loop_stops_at_sentinel _ l rest); [|now simpl; rewrite Eb|auto..].
  simpl. split; [reflexivity|].
  rewrite final_flush_unguarded. apply flush_all_chat. reflexivity.
Qed.

(** A line whose payload does not decode is put back with its line feed,
    so the next chunk is appended after that line feed: the same line is
    extracted again, fails again, and nothing of the conversation
    changes, whatever arrives. *)
Lemma retry_never_succeeds (st : State) (l rest value : text) :
  textBuffer st = l ++ LF :: rest -> ~ In LF l ->
  startsWith (strip_cr l) (lit "data: ") = true ->
  trim (slice (strip_cr l) 6 None) <> lit "[DONE]" ->
  decode (trim (slice (strip_cr l) 6 None)) = Thrown ->
  process_chunk st value
  = set_textBuffer (strip_cr l ++ LF :: rest ++ value) st.
Proof.
  intros Eb Hl D S T. unfold process_chunk.
  rewrite line_loop_equation. simpl textBuffer.
  rewrite Eb, <- app_assoc. simpl app. rewrite next_line_app by assumption.
  unfold loop_body. destruct (data_line_facts _ D) as (_ & -> & -> & _).
  rewrite D. simpl. apply text_eqb_neq in S. rewrite S, T.
  reflexivity.
Qed.

(** The final flush then drops that line. *)
Lemma flush_drops_thrown_line (st : State) (l rest : text) :
  ~ In LF l ->
  startsWith l (lit "data: ") = true ->
  decode (trim (slice l 6 None)) = Thrown ->
  flush_all (l ++ LF :: rest) st = flush_all rest st.
Proof.
  intros Hl D T. rewrite flush_all_line by assumption. f_equal.
  rewrite flush_raw_frame. unfold frame_delta.
  destruct (data_line_facts _ D) as (-> & -> & -> & _). rewrite D. simpl.
  rewrite T. now destruct (text_eqb _ _).
Qed.

(** The statuses 429 and 402 return from inside the try block: the toast
    is raised, no assistant message is appended, and the user turn added
    at line 29 stays in the conversation. *)
Lemma early_return_outcome (messages0 : list Message) (userMessage : text)
  (body : option Body) :
  streamChat messages0 userMessage (Response 429 body)
  = mkState (messages0 ++ [mkMessage user userMessage]) false
            [RateLimited] [] [] false
  /\ streamChat messages0 userMessage (Response 402 body)
     = mkState (messages0 ++ [mkMessage user userMessage]) false
               [QuotaExhausted] [] [] false.
Proof. split; reflexivity. Qed.

(** Every other status outside 200-299, a rejected fetch and a missing
    body reach the catch block before the placeholder exists: the generic
    toast is raised and [slice(0, -1)] removes the user turn. *)
Lemma generic_failure_outcome (messages0 : list Message) (userMessage : text)
  (status : Z) (body : option Body) :
  ok status = false -> status <> 429%Z -> status <> 402%Z ->
  streamChat messages0 userMessage (Response status body)
  = mkState messages0 false [GenericFailure] [] [] false
  /\ streamChat messages0 userMessage FetchRejected
     = mkState messages0 false [GenericFailure] [] [] false
  /\ streamChat messages0 userMessage (Response 200 None)
     = mkState messages0 false [GenericFailure] [] [] false.
Proof.
  intros Hok H1 H2.
  assert (E : slice (messages0 ++ [mkMessage user userMessage]) 0
                    (Some (-1)%Z) = messages0).
  { now rewrite slice_drop_last, removelast_last. }
  assert (C : setIsLoading false
                (catch_block
                   (mkState (messages0 ++ [mkMessage user userMessage])
                            true [] [] [] false))
              = mkState messages0 false [GenericFailure] [] [] false).
  { unfold catch_block, setMessages, toast, setIsLoading.
    cbn [messages isLoading toasts assistantContent textBuffer streamDone].
    now rewrite E. }
  unfold streamChat, try_block. rewrite Hok. simpl negb.
  apply Z.eqb_neq in H1, H2. rewrite H1, H2. cbv iota.
  change (ok 200) with true. simpl negb. cbv iota.
  rewrite C. auto.
Qed.

(** When the stream breaks after the placeholder was appended, the last
    message is the assistant message, and that is the one the catch block
    removes: the reply accumulated so far leaves the conversation and the
    user turn stays. *)
Lemma broken_stream_outcome (messages0 : list Message) (userMessage : text)
  (status : Z) (received : list text) (st : State) :
  ok status = true ->
  read_loop received TransportBroken (streaming_start messages0 userMessage)
  = Throw st ->
  messages (streamChat messages0 userMessage
              (Response status (Some (mkBody received TransportBroken))))
  = messages0 ++ [mkMessage user userMessage]
  /\ messages st
     = (messages0 ++ [mkMessage user userMessage])
         ++ [mkMessage assistant (assistantContent st)].
Proof.
  intros Hok R.
  pose proof (read_loop_shows (messages0 ++ [mkMessage user userMessage])
                received TransportBroken
                (streaming_start messages0 userMessage) eq_refl) as H.
  rewrite R in H. simpl in H. unfold shows_reply in H.
  split; [|exact H].
  rewrite streamChat_streaming by assumption. simpl chunks. simpl ending.
  rewrite R. simpl. rewrite H. now rewrite slice_drop_last, removelast_last.
Qed.

End DriverFacts.

(* ------------------------------------------------------------------ *)
(** ** Runs on the reference platform *)

(** The two scenarios of the specification. *)
Example scenario_split_payload :
  final_text
    (run_streamChat [] (lit "hi")
       (ok_response
          [ jlit "data: {'choices':[{'delta':{'content':'He";
            jlit "llo'}}]}" ++ [LF];
            done_line ++ [LF] ]
          TransportDone))
  = Some (lit "Hello").
Proof. vm_compute. reflexivity. Qed.

Example scenario_two_lines_one_chunk :
  final_text
    (run_streamChat [] (lit "hi")
       (ok_response [ delta_line "A" ++ [LF] ++ delta_line "B" ++ [LF] ]
                    TransportDone))
  = Some (lit "AB").
Proof. vm_compute. reflexivity. Qed.

(** The stream [unterminated_chunks] ends without a line feed; its last
    data line is still in the buffer when the read loop ends, and the
    final flush applies it. *)
Lemma residual_line_flushed_witness :
  textBuffer unterminated_exit = delta_line "B"
  /\ assistantContent unterminated_exit = lit "A"
  /\ final_text
       (run_streamChat [] (lit "hi")
          (ok_response unterminated_chunks TransportDone))
     = Some (lit "AB").
Proof.
  split; [vm_compute; reflexivity|].
  split; [vm_compute; reflexivity|].
  apply (residual_line_flushed (platform := reference_platform)
           [] (lit "hi") 200 unterminated_chunks unterminated_exit
           [] (delta_line "B") (lit "B")).
  - vm_compute; reflexivity.
  - vm_compute; reflexivity.
  - vm_compute; reflexivity.
  - left; reflexivity.
  - vm_compute. intros H.
    repeat (destruct H as [H|H]; [discriminate H|]). exact H.
  - vm_compute; reflexivity.
  - vm_compute. intros H. discriminate H.
  - vm_compute; reflexivity.
Defined.

(** At the start of streaming the last message shows the (empty)
    accumulated reply, and a chunk with one data line extends it. *)
Lemma text_only_grows_witness :
  tracks_reply (streaming_start [] (lit "hi"))
  /\ exists t,
      assistantContent
        (process_chunk (platform := reference_platform)
           (streaming_start [] (lit "hi")) (delta_line "A" ++ [LF]))
      = assistantContent (streaming_start [] (lit "hi")) ++ t.
Proof.
  assert (T : tracks_reply (streaming_start [] (lit "hi"))).
  { exists [mkMessage user (lit "hi")]. reflexivity. }
  split; [exact T|].
  apply (text_only_grows (platform := reference_platform)
           (streaming_start [] (lit "hi")) T).
Defined.

(** C2 on the code.  A data line that follows the sentinel line in the
    same chunk: the streaming loop stops at the sentinel and leaves that
    line in the buffer, and the final flush then applies its delta. *)
Theorem sentinel_does_not_stop_flush :
  streamDone
    (run_streamChat [] (lit "hi") (ok_response sentinel_then_data TransportDone))
  = true
  /\ final_text
       (run_streamChat [] (lit "hi")
          (ok_response sentinel_then_data TransportDone))
     = Some (lit "X").
Proof. split; vm_compute; reflexivity. Qed.

(** C1 on the code.  The stream of [sentinel_then_data] is made of lines
    of the wire format: the sentinel line, then a data line.  Delivered
    in one chunk, the data line is in the buffer when the loop stops at
    the sentinel, and the final flush applies it; delivered with the
    chunk boundary after the sentinel line, it is never read.  The same
    text gives "X" with one chunking and the empty reply with the
    other. *)
Theorem chunking_changes_text_after_sentinel :
  well_formed (platform := reference_platform) (concat sentinel_then_data)
  = true
  /\ concat sentinel_then_data_split = concat sentinel_then_data
  /\ final_text
       (run_streamChat [] (lit "hi")
          (ok_response sentinel_then_data TransportDone))
     = Some (lit "X")
  /\ final_text
       (run_streamChat [] (lit "hi")
          (ok_response sentinel_then_data_split TransportDone))
     = Some [].
Proof. repeat split; vm_compute; reflexivity. Qed.

(** C3 on the code.  The payload [split_payload] carries the delta "Hi".
    Its first part ends a chunk at a line feed, so the loop extracts it,
    fails to decode it and puts it back; the completing bytes arrive in the
    next chunk and change nothing; the following data line is held up
    until the final flush.  The delta "Hi" is never applied. *)
Theorem split_payload_delta_dropped :
  decode (platform := reference_platform) split_payload = Content (lit "Hi")
  /\ concat split_payload_chunks
     = lit "data: " ++ split_payload ++ [LF] ++ delta_line "B" ++ [LF]
  /\ assistantContent
       (completion_state
          (read_loop (platform := reference_platform) split_payload_chunks
                     TransportDone (streaming_start [] (lit "hi"))))
     = []
  /\ final_text
       (run_streamChat [] (lit "hi")
          (ok_response split_payload_chunks TransportDone))
     = Some (lit "B").
Proof. repeat split; vm_compute; reflexivity. Qed.

(** C4 on the code.  A response with status 429: the rate-limit toast is
    raised and no assistant message is appended, but the user turn is
    still in the conversation. *)
Theorem rate_limited_keeps_user_turn :
  run_streamChat [] (lit "hi") (Response 429 None)
  = mkState [mkMessage user (lit "hi")] false [RateLimited] [] [] false.
Proof. vm_compute. reflexivity. Qed.

(** C5 on the code.  The stream breaks after the delta "Hi" was applied:
    the catch block removes the last message, which is the assistant
    message, and the conversation is left with the user turn alone. *)
Theorem partial_reply_removed_on_failure :
  messages (run_streamChat [] (lit "hi") broken_after_delta)
  = [mkMessage user (lit "hi")]
  /\ assistantContent (run_streamChat [] (lit "hi") broken_after_delta)
     = lit "Hi"
  /\ toasts (run_streamChat [] (lit "hi") broken_after_delta)
     = [GenericFailure].
Proof. repeat split; vm_compute; reflexivity. Qed.

(* ------------------------------------------------------------------ *)
(** ** The input box *)

Lemma trimStart_fixed (s : text) :
  s = [] \/ (exists c r, s = c :: r /\ isWhiteSpace c = false) ->
  trimStart s = s.
Proof.
  intros [->|(c & r & -> & Hc)]; [reflexivity|]. simpl. now rewrite Hc.
Qed.

Lemma trimStart_idempotent (s : text) : trimStart (trimStart s) = trimStart s.
Proof. apply trimStart_fixed, trimStart_head. Qed.

Lemma trimStart_app_visible (y : text) (c : char) :
  isWhiteSpace c = false -> exists z, trimStart (y ++ [c]) = z ++ [c].
Proof.
  intros Hc. induction y as [|x y IH]; simpl.
  - rewrite Hc. now exists [].
  - destruct (isWhiteSpace x); [assumption|]. now exists (x :: y).
Qed.

Lemma trimStart_length (s : text) : length (trimStart s) <= length s.
Proof.
  induction s as [|x s IH]; simpl; [lia|].
  destruct (isWhiteSpace x); simpl; lia.
Qed.

(** Trimming the end keeps a first character that is not white space. *)
Lemma trimEnd_head (s : text) :
  trimStart s = s ->
  trimEnd s = [] \/ exists c r, trimEnd s = c :: r /\ isWhiteSpace c = false.
Proof.
  intros H. destruct s as [|c r]; [now left|].
  assert (Hc : isWhiteSpace c = false).
  { destruct (isWhiteSpace c) eqn:E; [|reflexivity].
    simpl in H. rewrite E in H.
    exfalso. pose proof (trimStart_length r) as L.
    rewrite H in L. simpl in L. lia. }
  right. unfold trimEnd. simpl rev.
  destruct (trimStart_app_visible (rev r) c Hc) as [z ->].
  rewrite rev_app_distr. simpl. now exists c, (rev z).
Qed.

Lemma trimEnd_idempotent (s : text) : trimEnd (trimEnd s) = trimEnd s.
Proof.
  unfold trimEnd. now rewrite rev_involutive, trimStart_idempotent.
Qed.

Lemma trim_idempotent (s : text) : trim (trim s) = trim s.
Proof.
  unfold trim at 1.
  rewrite (trimStart_fixed (trim s)).
  - unfold trim. apply trimEnd_idempotent.
  - unfold trim. apply trimEnd_head, trimStart_idempotent.
Qed.

(** A trimmed text that is not empty begins and ends with a character
    that is not white space. *)
Lemma trim_ends_visible (s : text) :
  trim s <> [] ->
  exists first middle, 
    trim s = first :: middle
    /\ isWhiteSpace first = false
    /\ isWhiteSpace (last (trim s) first) = false.
Proof.
  intros Hne.
  destruct (trimEnd_head (trimStart s) (trimStart_idempotent s))
    as [E|(c & r & E & Hc)]; [now elim Hne|].
  exists c, r. split; [exact E|]. split; [exact Hc|].
  unfold trim, trimEnd in *.
  destruct (trimStart_head (rev (trimStart s))) as [E'|(d & t & E' & Hd)].
  - rewrite E' in E. discriminate.
  - rewrite E'. simpl. now rewrite last_last.
Qed.

(** X1.  When [handleSend] calls [onSend], no request is in flight, the
    message is the trimmed input, it is not empty, it begins and ends with
    a character that is not white space (trimming it again changes
    nothing), and the input box is emptied while the model and the
    attachments stay. *)
Theorem handleSend_sends_trimmed (File : Type) (isLoading : bool)
  (ci ci' : ChatInput File) (userMessage : text) :
  handleSend isLoading ci = (Some userMessage, ci') ->
  isLoading = false
  /\ userMessage = trim (input ci)
  /\ userMessage <> []
  /\ trim userMessage = userMessage
  /\ (exists first middle,
         userMessage = first :: middle
         /\ isWhiteSpace first = false
         /\ isWhiteSpace (last userMessage first) = false)
  /\ ci' = mkChatInput [] (model ci) (isAttachmentOpen ci) (attachedFiles ci).
Proof.
  unfold handleSend. intros H.
  destruct (text_eqb (trim (input ci)) []) eqn:E; [discriminate|].
  destruct isLoading; [discriminate|]. simpl in H.
  inversion H; subst. apply text_eqb_neq in E.
  split; [reflexivity|]. split; [reflexivity|]. split; [exact E|].
  split; [apply trim_idempotent|]. split; [|reflexivity].
  now apply trim_ends_visible.
Qed.

(** X2.  The send button is disabled exactly when [handleSend] would do
    nothing: [handleSend] sends and empties the box when the button is
    enabled, and leaves everything as it is when the button is disabled;
    the Enter key without Shift does what the button does, and any other
    key does nothing. *)
Theorem send_button_agrees (File : Type) (isLoading : bool)
  (ci : ChatInput File) (e : KeyboardEvent) :
  handleSend isLoading ci
  = (if send_disabled isLoading ci then (None, ci)
     else (Some (trim (input ci)), setInput [] ci))
  /\ handleKeyPress e isLoading ci
     = (if text_eqb (key e) (lit "Enter") && negb (shiftKey e)
        then (true,
              if send_disabled isLoading ci then (None, ci)
              else (Some (trim (input ci)), setInput [] ci))
        else (false, (None, ci))).
Proof.
  assert (H : handleSend isLoading ci
              = (if send_disabled isLoading ci then (None, ci)
                 else (Some (trim (input ci)), setInput [] ci))).
  { unfold handleSend, send_disabled.
    destruct (text_eqb (trim (input ci)) []), isLoading; reflexivity. }
  split; [exact H|]. unfold handleKeyPress. now rewrite H.
Qed.

Lemma filter_index_spec (A : Type) (l : list A) :
  forall (from : nat) (index : Z),
    filter_index from index l
    = if ((Z.of_nat from <=? index) && (index <? Z.of_nat (from + length l)))%Z
      then firstn (Z.to_nat index - from) l
           ++ skipn (S (Z.to_nat index - from)) l
      else l.
Proof.
  induction l as [|x l IH]; intros from index.
  - cbn. destruct (_ && _)%Z; [now rewrite firstn_nil|reflexivity].
  - cbn [filter_index length]. rewrite IH.
    destruct (Z.eqb_spec (Z.of_nat from) index) as [Heq|Hne];
      destruct (Z.leb_spec (Z.of_nat (S from)) index);
      destruct (Z.ltb_spec index (Z.of_nat (S from + length l)));
      destruct (Z.leb_spec (Z.of_nat from) index);
      destruct (Z.ltb_spec index (Z.of_nat (from + S (length l))));
      try lia; cbn [andb]; try reflexivity.
    + subst index. now rewrite Nat2Z.id, Nat.sub_diag.
    + replace (Z.to_nat index - from) with (S (Z.to_nat index - S from))
        by lia.
      reflexivity.
Qed.

(** X3.  [handleRemoveFile] removes the attachment at [index] and keeps
    the others in their order; an index that is negative, or not below
    the number of attachments, removes nothing.  The text, the model and
    the popover are not touched. *)
Theorem handleRemoveFile_removes_one (File : Type) (index : Z)
  (ci : ChatInput File) :
  attachedFiles (handleRemoveFile index ci)
  = (if ((0 <=? index) && (index <? Z.of_nat (length (attachedFiles ci))))%Z
     then firstn (Z.to_nat index) (attachedFiles ci)
          ++ skipn (S (Z.to_nat index)) (attachedFiles ci)
     else attachedFiles ci)
  /\ length (attachedFiles (handleRemoveFile index ci))
     = (if ((0 <=? index) && (index <? Z.of_nat (length (attachedFiles ci))))%Z
        then length (attachedFiles ci) - 1
        else length (attachedFiles ci))
  /\ input (handleRemoveFile index ci) = input ci
  /\ model (handleRemoveFile index ci) = model ci
  /\ isAttachmentOpen (handleRemoveFile index ci) = isAttachmentOpen ci.
Proof.
  assert (E : attachedFiles (handleRemoveFile index ci)
              = (if ((0 <=? index)
                     && (index <? Z.of_nat (length (attachedFiles ci))))%Z
                 then firstn (Z.to_nat index) (attachedFiles ci)
                      ++ skipn (S (Z.to_nat index)) (attachedFiles ci)
                 else attachedFiles ci)).
  { unfold handleRemoveFile. simpl. rewrite filter_index_spec. simpl.
    now rewrite Nat.sub_0_r. }
  split; [exact E|]. split; [|repeat split].
  rewrite E.
  destruct (Z.leb_spec 0 index) as [H0|H0]; [|reflexivity].
  destruct (Z.ltb_spec index (Z.of_nat (length (attachedFiles ci))))
    as [H1|H1]; [|reflexivity].
  cbn [andb]. rewrite length_app, length_firstn, length_skipn. lia.
Qed.

(** X4.  Files selected in the picker are appended after the attachments
    already there, and removing the preview at the position of one of
    them takes out that file and no other; a picker that reports no file
    list changes nothing. *)
Theorem select_then_remove (File : Type) (ci : ChatInput File)
  (newFiles : list File) (k : nat) :
  k < length newFiles ->
  attachedFiles (handleFileSelect (Some newFiles) ci)
  = attachedFiles ci ++ newFiles
  /\ attachedFiles
       (handleRemoveFile (Z.of_nat (length (attachedFiles ci) + k))
          (handleFileSelect (Some newFiles) ci))
     = attachedFiles ci ++ firstn k newFiles ++ skipn (S k) newFiles
  /\ handleFileSelect None ci = ci.
Proof.
  intros Hk. split; [reflexivity|]. split; [|reflexivity].
  unfold handleRemoveFile, handleFileSelect. cbn [attachedFiles setAttachedFiles].
  rewrite filter_index_spec. cbn [Nat.add]. rewrite Nat.sub_0_r, Nat2Z.id.
  destruct (Z.leb_spec (Z.of_nat 0) (Z.of_nat (length (attachedFiles ci) + k)));
    [|lia].
  destruct (Z.ltb_spec (Z.of_nat (length (attachedFiles ci) + k))
                       (Z.of_nat (length (attachedFiles ci ++ newFiles))));
    [|rewrite length_app in *; lia].
  cbn [andb].
  rewrite firstn_app, skipn_app.
  rewrite firstn_all2 by lia. rewrite (skipn_all2 (attachedFiles ci)) by lia.
  replace (length (attachedFiles ci) + k - length (attachedFiles ci))
    with k by lia.
  replace (S (length (attachedFiles ci) + k) - length (attachedFiles ci))
    with (S k) by lia.
  cbn [app]. now rewrite <- app_assoc.
Qed.

(** X5.  The preview shows the picture exactly for the files that it
    labels as images; a PDF is never shown as a picture. *)
Theorem preview_label_matches_thumbnail (type : text) :
  thumbnail type
  = match kind_label type with
    | LabelImage => Picture
    | LabelPDF | LabelFile => FileIcon
    end.
Proof.
  unfold thumbnail, kind_label.
  destruct (isPDF type) eqn:P.
  - apply text_eqb_eq in P. subst. reflexivity.
  - now destruct (isImage type).
Qed.

(* ------------------------------------------------------------------ *)
(** ** More about the stream driver *)


Section Extensions.

Context {platform : Platform}.


Lemma flush_all_reply (b : text) (st : State) :
  assistantContent (flush_all b st) = assistantContent st ++ reply_of_stream b.
Proof.
  unfold flush_all, reply_of_stream. revert st.
  induction (split b LF) as [|raw pieces IH]; intros st; simpl.
  - now rewrite app_nil_r.
  - rewrite IH, flush_raw_frame. unfold piece_delta.
    destruct (frame_delta raw); simpl; [now rewrite app_assoc|reflexivity].
Qed.

Lemma read_loop_completes (cs : list text) :
  forall st, exists st', read_loop cs TransportDone st = Normal st'.
Proof.
  induction cs as [|c cs IH]; intros st; simpl.
  - destruct (streamDone st); eauto.
  - destruct (streamDone st); eauto.
Qed.

(** The outcome of a run whose read loop completes. *)
Lemma completed_run (messages0 : list Message) (userMessage : text)
  (status : Z) (body : Body) (st : State) :
  ok status = true ->
  read_loop (chunks body) (ending body)
            (streaming_start messages0 userMessage) = Normal st ->
  let final :=
    streamChat messages0 userMessage (Response status (Some body)) in
  chat final = chat (final_flush st)
  /\ messages final
     = messages0 ++ [mkMessage user userMessage;
                     mkMessage assistant (assistantContent final)]
  /\ toasts final = []
  /\ isLoading final = false.
Proof.
  intros Hok R final. unfold final.
  rewrite streamChat_streaming, R by assumption.
  pose proof (read_loop_shows (messages0 ++ [mkMessage user userMessage])
                (chunks body) (ending body)
                (streaming_start messages0 userMessage) eq_refl) as S.
  pose proof (read_loop_flags (chunks body) (ending body)
                (streaming_start messages0 userMessage)) as [_ T].
  rewrite R in S, T. simpl in S, T.
  split; [reflexivity|]. split; [|split; [|reflexivity]].
  - change (messages (final_flush st)
            = messages0 ++ [mkMessage user userMessage;
                            mkMessage assistant
                                      (assistantContent (final_flush st))]).
    rewrite final_flush_unguarded.
    pose proof (flush_all_shows _ (textBuffer st) st S) as F.
    unfold shows_reply in F. rewrite F, <- app_assoc. reflexivity.
  - change (toasts (final_flush st) = []).
    rewrite final_flush_unguarded.
    destruct (flush_all_locals (textBuffer st) st) as (_ & _ & _ & ->).
    exact T.
Qed.

(** X7.  A stream that the transport completes: whatever its chunks
    hold, the run ends with the history as it was, followed by the user
    turn and one assistant message that shows the accumulated reply; no
    toast is raised and the loading flag is cleared. *)
Theorem completed_stream_outcome (messages0 : list Message)
  (userMessage : text) (status : Z) (received : list text) :
  ok status = true ->
  let final :=
    streamChat messages0 userMessage
               (Response status (Some (mkBody received TransportDone))) in
  messages final
  = messages0 ++ [mkMessage user userMessage;
                  mkMessage assistant (assistantContent final)]
  /\ toasts final = []
  /\ isLoading final = false.
Proof.
  intros Hok final.
  destruct (read_loop_completes received
              (streaming_start messages0 userMessage)) as [st R].
  destruct (completed_run messages0 userMessage status
              (mkBody received TransportDone) st Hok R) as (_ & M & T & L).
  auto.
Qed.

(** X8.  For a stream in which nothing follows a sentinel line, the reply
    is the concatenation of the deltas of its lines in the order of the
    stream, whatever the chunk boundaries: no delta is dropped, repeated
    or moved. *)
Theorem reply_is_deltas_in_order (messages0 : list Message)
  (userMessage : text) (status : Z) (received : list text) :
  ok status = true ->
  sentinel_last (split (concat received) LF) = true ->
  let final :=
    streamChat messages0 userMessage
               (Response status (Some (mkBody received TransportDone))) in
  assistantContent final = reply_of_stream (concat received)
  /\ final_text final = Some (reply_of_stream (concat received)).
Proof.
  intros Hok W final.
  destruct (read_loop_whole received
              (streaming_start messages0 userMessage) eq_refl W)
    as (st & R & C).
  destruct (completed_run messages0 userMessage status
              (mkBody received TransportDone) st Hok R) as (F & M & _).
  fold final in F, M.
  assert (A : assistantContent final = reply_of_stream (concat received)).
  { apply (f_equal snd) in F, C. unfold chat in F, C. cbn [snd] in F, C.
    rewrite F, C. now rewrite flush_all_reply. }
  split; [exact A|].
  unfold final_text. rewrite M, length_app. simpl length.
  replace (length messages0 + 2 - 1) with (S (length messages0)) by lia.
  rewrite nth_error_app2 by lia.
  replace (S (length messages0) - length messages0) with 1 by lia.
  change (Some (assistantContent final)
          = Some (reply_of_stream (concat received))).
  now rewrite A.
Qed.
Lemma non_data_line_inert (c : text) :
  startsWith c (lit "data: ") = false ->
  frame_delta c = None /\ sentinel_line c = false.
Proof.
  intros H. unfold frame_delta, sentinel_line. rewrite H. simpl.
  now destruct (_ || _).
Qed.

Lemma sentinel_last_drop (P B : list text) (c : text) :
  B <> [] -> sentinel_line c = false ->
  sentinel_last (P ++ c :: B) = true -> sentinel_last (P ++ B) = true.
Proof.
  intros HB Hc. induction P as [|x P IH]; intros H.
  - simpl in *. destruct B as [|b B]; [congruence|]. now rewrite Hc in H.
  - change ((x :: P) ++ c :: B) with (x :: (P ++ c :: B)) in H.
    change ((x :: P) ++ B) with (x :: (P ++ B)).
    simpl in H |- *.
    destruct (P ++ c :: B) as [|y Y] eqn:E1;
      [now destruct P|].
    destruct (P ++ B) as [|z Z] eqn:E2;
      [reflexivity|].
    destruct (sentinel_line x).
    + exfalso. destruct Y as [|y' Y']; [|now destruct y].
      destruct P as [|p P]; simpl in E1.
      * inversion E1; subst. congruence.
      * inversion E1 as [[E3 E4]]. now destruct P.
    + now apply IH.
Qed.

Lemma pieces_with_line (a c b : text) :
  a = [] \/ (exists p, a = p ++ [LF]) -> ~ In LF c ->
  exists P,
    split (a ++ c ++ LF :: b) LF = P ++ c :: split b LF
    /\ split (a ++ b) LF = P ++ split b LF.
Proof.
  intros [->|[p ->]] Hc.
  - exists []. simpl. now rewrite split_app.
  - exists (split p LF). rewrite <- !app_assoc. simpl.
    rewrite !split_app_sep, (split_no_sep c LF Hc). now split.
Qed.

(** X9.  A line that is not a data line (a blank line, a comment, any
    other text that does not begin with the data prefix), added between
    two lines of a stream in which nothing follows a sentinel line,
    changes nothing of the outcome, however the two streams are cut into
    chunks. *)
Theorem non_data_line_is_ignored (messages0 : list Message)
  (userMessage : text) (status : Z) (a c b : text)
  (chunks1 chunks2 : list text) :
  a = [] \/ (exists p, a = p ++ [LF]) ->
  ~ In LF c ->
  startsWith c (lit "data: ") = false ->
  sentinel_last (split (a ++ c ++ LF :: b) LF) = true ->
  concat chunks1 = a ++ c ++ LF :: b ->
  concat chunks2 = a ++ b ->
  let run cs :=
    streamChat messages0 userMessage
               (Response status (Some (mkBody cs TransportDone))) in
  messages (run chunks1) = messages (run chunks2)
  /\ final_text (run chunks1) = final_text (run chunks2).
Proof.
  intros Ha Hc Hd W E1 E2 run.
  destruct (non_data_line_inert c Hd) as [F S].
  destruct (pieces_with_line a c b Ha Hc) as (P & S1 & S2).
  assert (W2 : sentinel_last (split (a ++ b) LF) = true).
  { rewrite S2. apply (sentinel_last_drop P (split b LF) c);
      [apply split_nonempty|assumption|now rewrite <- S1]. }
  assert (M : messages (run chunks1) = messages (run chunks2)).
  { unfold run. destruct (ok status) eqn:Hok.
    - rewrite !streamChat_streaming by assumption. simpl chunks. simpl ending.
      set (st0 := streaming_start messages0 userMessage).
      destruct (read_loop_whole chunks1 st0) as (st1 & -> & C1);
        [reflexivity|simpl; now rewrite E1|].
      destruct (read_loop_whole chunks2 st0) as (st2 & -> & C2);
        [reflexivity|simpl; now rewrite E2|].
      change (fst (chat (final_flush st1)) = fst (chat (final_flush st2))).
      rewrite C1, C2, E1, E2. f_equal.
      change (textBuffer st0) with (@nil char). cbn [app].
      unfold flush_all. rewrite S1, S2, !fold_left_app. simpl.
      now rewrite (flush_raw_frame _ c), F.
    - f_equal. now apply streamChat_unsuccessful. }
  split; [exact M|]. unfold final_text. now rewrite M.
Qed.

Lemma read_loop_after_sentinel (cs1 rest : list text) (e : ReadEnd) :
  forall st,
    streamDone (completion_state (read_loop cs1 TransportDone st)) = true ->
    read_loop (cs1 ++ rest) e st = read_loop cs1 TransportDone st.
Proof.
  induction cs1 as [|c cs1 IH]; intros st H; simpl in *.
  - destruct (streamDone st) eqn:D; simpl in H.
    + now rewrite read_loop_done.
    + congruence.
  - destruct (streamDone st); [reflexivity|]. now apply IH.
Qed.

(** X10.  Once the sentinel line has been read, the transport is not read
    again: the chunks that follow, and a connection that breaks
    afterwards, change nothing of the outcome and raise no error. *)
Theorem sentinel_ends_reading (messages0 : list Message) (userMessage : text)
  (status : Z) (received later : list text) (e : ReadEnd) :
  streamDone
    (completion_state
       (read_loop received TransportDone
                  (streaming_start messages0 userMessage))) = true ->
  streamChat messages0 userMessage
             (Response status (Some (mkBody (received ++ later) e)))
  = streamChat messages0 userMessage
               (Response status (Some (mkBody received TransportDone))).
Proof.
  intros H. destruct (ok status) eqn:Hok.
  - rewrite !streamChat_streaming by assumption. simpl chunks. simpl ending.
    now rewrite read_loop_after_sentinel.
  - now apply streamChat_unsuccessful.
Qed.

Lemma catch_outcome (messages0 : list Message) (userMessage : text) :
  setIsLoading false (catch_block (request_entry messages0 userMessage))
  = mkState messages0 false [GenericFailure] [] [] false.
Proof.
  unfold catch_block, setMessages, toast, setIsLoading, request_entry.
  cbn [messages isLoading toasts assistantContent textBuffer streamDone].
  now rewrite slice_drop_last, removelast_last.
Qed.

(** The outcome of a run whose read loop throws. *)
Lemma thrown_run (messages0 : list Message) (userMessage : text)
  (status : Z) (body : Body) (st : State) :
  ok status = true ->
  read_loop (chunks body) (ending body)
            (streaming_start messages0 userMessage) = Throw st ->
  let final :=
    streamChat messages0 userMessage (Response status (Some body)) in
  messages final = messages0 ++ [mkMessage user userMessage]
  /\ toasts final = [GenericFailure].
Proof.
  intros Hok R final. unfold final.
  rewrite streamChat_streaming, R by assumption.
  pose proof (read_loop_shows (messages0 ++ [mkMessage user userMessage])
                (chunks body) (ending body)
                (streaming_start messages0 userMessage) eq_refl) as S.
  pose proof (read_loop_flags (chunks body) (ending body)
                (streaming_start messages0 userMessage)) as [_ T].
  rewrite R in S, T. simpl in S, T. unfold shows_reply in S.
  unfold catch_block, setMessages, toast, setIsLoading.
  cbn [messages isLoading toasts assistantContent textBuffer streamDone].
  rewrite S, T, slice_drop_last, removelast_last. now split.
Qed.

(** The three shapes of the conversation after a run. *)
Lemma streamChat_forms (messages0 : list Message) (userMessage : text)
  (net : FetchResult) :
  let final := streamChat messages0 userMessage net in
  (messages final = messages0 /\ toasts final = [GenericFailure])
  \/ (messages final = messages0 ++ [mkMessage user userMessage]
      /\ exists t, toasts final = [t])
  \/ (messages final
      = messages0 ++ [mkMessage user userMessage;
                      mkMessage assistant (assistantContent final)]
      /\ toasts final = []
      /\ exists status body st,
          net = Response status (Some body) /\ ok status = true
          /\ read_loop (chunks body) (ending body)
                       (streaming_start messages0 userMessage) = Normal st).
Proof.
  intros final. unfold final.
  assert (C : streamChat messages0 userMessage FetchRejected
              = mkState messages0 false [GenericFailure] [] [] false)
    by apply catch_outcome.
  destruct net as [|status body].
  - left. now rewrite C.
  - destruct (ok status) eqn:Hok.
    + destruct body as [body|].
      * destruct (read_loop (chunks body) (ending body)
                    (streaming_start messages0 userMessage)) as [st|st] eqn:R.
        -- right; right.
           destruct (completed_run messages0 userMessage status body st Hok R)
             as (_ & M & T & _).
           split; [exact M|]. split; [exact T|]. now exists status, body, st.
        -- right; left.
           destruct (thrown_run messages0 userMessage status body st Hok R)
             as (M & T).
           split; [exact M|]. now exists GenericFailure.
      * left. unfold streamChat, try_block. rewrite Hok. simpl negb. cbv iota.
        fold (request_entry messages0 userMessage).
        now rewrite catch_outcome.
    + unfold streamChat, try_block. rewrite Hok. simpl negb. cbv iota.
      destruct (status =? 429)%Z.
      * right; left. split; [reflexivity|now exists RateLimited].
      * destruct (status =? 402)%Z.
        -- right; left. split; [reflexivity|now exists QuotaExhausted].
        -- left. fold (request_entry messages0 userMessage).
           now rewrite catch_outcome.
Qed.

(** X11.  A run raises at most one toast, and it raises none exactly when
    the response was successful, had a body, and the read loop came to
    its end without a rejected read. *)
Theorem toast_only_on_failure (messages0 : list Message) (userMessage : text)
  (net : FetchResult) :
  length (toasts (streamChat messages0 userMessage net)) <= 1
  /\ (toasts (streamChat messages0 userMessage net) = []
      <-> exists status body st,
            net = Response status (Some body) /\ ok status = true
            /\ read_loop (chunks body) (ending body)
                         (streaming_start messages0 userMessage) = Normal st).
Proof.
  destruct (streamChat_forms messages0 userMessage net)
    as [[_ T]|[[_ [t T]]|(_ & T & E)]]; rewrite T; simpl.
  - split; [lia|]. split; [discriminate|].
    intros (status & body & st & -> & Hok & R).
    destruct (completed_run messages0 userMessage status body st Hok R)
      as (_ & _ & T' & _).
    rewrite T' in T. discriminate.
  - split; [lia|]. split; [discriminate|].
    intros (status & body & st & -> & Hok & R).
    destruct (completed_run messages0 userMessage status body st Hok R)
      as (_ & _ & T' & _).
    rewrite T' in T. discriminate.
  - split; [lia|]. split; [intros _; exact E|reflexivity].
Qed.

(** X12.  After a chunk has been processed the buffer holds no complete
    line, unless the loop left at the sentinel, or at a data line whose
    payload did not decode and which it put back at the head of the
    buffer. *)
Theorem buffer_at_rest (st : State) (value : text) :
  let st' := process_chunk st value in
  ~ In LF (textBuffer st')
  \/ streamDone st' = true
  \/ exists l rest,
       textBuffer st' = l ++ LF :: rest /\ ~ In LF l
       /\ startsWith l (lit "data: ") = true
       /\ decode (trim (slice l 6 None)) = Thrown.
Proof.
  unfold process_chunk.
  apply (line_loop_ind
           (fun _ st' =>
              ~ In LF (textBuffer st')
              \/ streamDone st' = true
              \/ exists l rest,
                   textBuffer st' = l ++ LF :: rest /\ ~ In LF l
                   /\ startsWith l (lit "data: ") = true
                   /\ decode (trim (slice l 6 None)) = Thrown)).
  - intros s H. now left.
  - intros s l rest st' _ _ _ IH. exact IH.
  - intros s l rest _ _ _ _. right; left. reflexivity.
  - intros s l rest _ Hl _ _ D T. right; right.
    exists (strip_cr l), rest. simpl.
    repeat split; auto using strip_cr_no_lf.
Qed.

Lemma last_is_user_last (before : list Message) (m : Message) :
  last_is_user (before ++ [m]) = Role_eqb (role m) user.
Proof.
  unfold last_is_user. rewrite length_app. simpl.
  replace (length before + 1 - 1) with (length before) by lia.
  now rewrite nth_error_app2, Nat.sub_diag by lia.
Qed.

Lemma render_nonempty (before : list Message) (m : Message) (st : State) :
  messages st = before ++ [m] ->
  render st
  = Conversation (before ++ [m]) (isLoading st && Role_eqb (role m) user).
Proof.
  intros E. unfold render. rewrite E, last_is_user_last, length_app. simpl.
  replace (length before + 1) with (S (length before)) by lia.
  reflexivity.
Qed.

(** X13.  The spinner is shown from the moment the user turn is appended
    until the placeholder is appended: it is on when the request is
    sent, off in every state of the read loop, where the last bubble is
    the assistant's and shows the reply accumulated so far, and off
    after the run, whatever its outcome. *)
Theorem spinner_until_placeholder (messages0 : list Message)
  (userMessage : text) :
  render (request_entry messages0 userMessage)
  = Conversation (messages0 ++ [mkMessage user userMessage]) true
  /\ (forall received e,
         let st :=
           completion_state
             (read_loop received e (streaming_start messages0 userMessage)) in
         render st
         = Conversation
             ((messages0 ++ [mkMessage user userMessage])
                ++ [mkMessage assistant (assistantContent st)])
             false)
  /\ (forall net,
         match render (streamChat messages0 userMessage net) with
         | Welcome => True
         | Conversation _ spinner => spinner = false
         end).
Proof.
  split; [|split].
  - now apply render_nonempty.
  - intros received e st.
    pose proof (read_loop_shows (messages0 ++ [mkMessage user userMessage])
                  received e (streaming_start messages0 userMessage) eq_refl)
      as S.
    fold st in S. unfold shows_reply in S.
    rewrite (render_nonempty _ _ st S). simpl. now rewrite andb_false_r.
  - intros net. unfold render.
    destruct (length _ =? 0); [exact I|reflexivity].
Qed.

(** X14.  After a run the welcome text is back only when the conversation
    was empty before and the request failed before streaming began, with
    the generic toast. *)
Theorem welcome_only_after_failure (messages0 : list Message)
  (userMessage : text) (net : FetchResult) :
  render (streamChat messages0 userMessage net) = Welcome ->
  messages0 = []
  /\ messages (streamChat messages0 userMessage net) = []
  /\ toasts (streamChat messages0 userMessage net) = [GenericFailure].
Proof.
  unfold render. intros H.
  destruct (length (messages (streamChat messages0 userMessage net)) =? 0)
    eqn:L; [|discriminate].
  apply Nat.eqb_eq in L.
  destruct (streamChat_forms messages0 userMessage net)
    as [[M T]|[[M _]|(M & _)]]; rewrite M in L.
  - apply length_zero_iff_nil in L. subst. rewrite M. auto.
  - rewrite length_app in L. simpl in L. lia.
  - rewrite length_app in L. simpl in L. lia.
Qed.

Lemma undecodable_strip (l : text) :
  undecodable_line l -> undecodable_line (strip_cr l).
Proof.
  intros (D & S & T). unfold undecodable_line.
  destruct (strip_cr_cases (strip_cr l)) as [->|E]; [auto|].
  assert (D' : startsWith (strip_cr (strip_cr l)) (lit "data: ") = true).
  { rewrite E in D. rewrite startsWith_app_other in D; [exact D|].
    rewrite lit_data. simpl. intuition discriminate. }
  rewrite E in S, T. rewrite payload_app_cr in S, T by assumption. auto.
Qed.

Lemma undecodable_frame (l : text) :
  undecodable_line l -> frame_delta l = None.
Proof.
  intros (D & S & T). rewrite <- frame_delta_strip. unfold frame_delta.
  destruct (data_line_facts _ D) as (-> & -> & -> & _). rewrite D. simpl.
  rewrite T. now destruct (text_eqb _ _).
Qed.

(** X15.  Once the first line of the buffer is a data line that does not
    decode, the streaming loop applies nothing more: whatever chunks
    follow, the conversation and the accumulated reply stay as they are
    and the sentinel is never seen; the lines that arrived after the
    failing line are applied by the final flush, in one go, and the
    failing line itself is dropped. *)
Theorem undecodable_line_blocks_loop (received : list text) :
  forall (st : State) (l rest : text),
    streamDone st = false ->
    textBuffer st = l ++ LF :: rest ->
    ~ In LF l ->
    undecodable_line l ->
    let exit := completion_state (read_loop received TransportDone st) in
    chat exit = chat st
    /\ streamDone exit = false
    /\ chat (final_flush exit) = chat (flush_all (rest ++ concat received) st).
Proof.
  induction received as [|c cs IH]; intros st l rest D Eb Hl U exit.
  - unfold exit. simpl. rewrite D. simpl. rewrite app_nil_r.
    split; [reflexivity|]. split; [exact D|].
    rewrite final_flush_unguarded, Eb, flush_all_line by assumption.
    now rewrite flush_raw_frame, (undecodable_frame l U).
  - unfold exit. simpl read_loop. rewrite D.
    destruct U as (UD & US & UT).
    rewrite (retry_never_succeeds st l rest c Eb Hl UD US UT).
    set (st1 := set_textBuffer (strip_cr l ++ LF :: rest ++ c) st).
    destruct (IH st1 (strip_cr l) (rest ++ c)) as (C & D1 & F);
      [exact D|reflexivity|now apply strip_cr_no_lf
      |now apply undecodable_strip|].
    split; [exact C|]. split; [exact D1|].
    rewrite F. simpl concat. rewrite <- app_assoc.
    apply flush_all_chat. reflexivity.
Qed.

(** X16.  A click on the send button starts a run only when no request is
    in flight; the user turn that the run appends carries the trimmed,
    non-empty text of the input box, the history before it is kept, and
    the input box is emptied. *)
Theorem send_click_outcome (File : Type) (messages0 : list Message)
  (isLoading : bool) (ci ci' : ChatInput File) (net : FetchResult)
  (final : State) :
  send_click messages0 isLoading ci net = (Some final, ci') ->
  isLoading = false
  /\ trim (input ci) <> []
  /\ input ci' = []
  /\ attachedFiles ci' = attachedFiles ci
  /\ (messages final = messages0
      \/ messages final = messages0 ++ [mkMessage user (trim (input ci))]
      \/ messages final
         = messages0 ++ [mkMessage user (trim (input ci));
                         mkMessage assistant (assistantContent final)]).
Proof.
  unfold send_click, handleSend. intros H.
  destruct (text_eqb (trim (input ci)) []) eqn:E; [discriminate|].
  destruct isLoading; [discriminate|]. simpl in H.
  inversion H; subst. apply text_eqb_neq in E.
  split; [reflexivity|]. split; [exact E|]. split; [reflexivity|].
  split; [reflexivity|].
  destruct (streamChat_forms messages0 (trim (input ci)) net)
    as [[M _]|[[M _]|(M & _)]]; auto.
Qed.

Lemma line_passes_continues (line : text) (st : State) :
  line_passes line = true -> loop_body line st = Continue (flush_raw st line).
Proof.
  unfold line_passes. intros H. apply andb_true_iff in H as [S T].
  apply negb_true_iff in S, T.
  destruct (loop_body_cases line st) as [[E _]|[(_ & S' & _)|(_ & _ & _ & D & U)]];
    [exact E|congruence|].
  rewrite D, U in T. discriminate.
Qed.

Lemma fold_flush_reply (lines : list text) :
  forall st,
    assistantContent (fold_left flush_raw lines st)
    = assistantContent st ++ concat (map piece_delta lines)
    /\ streamDone (fold_left flush_raw lines st) = streamDone st.
Proof.
  induction lines as [|raw lines IH]; intros st; simpl.
  - now rewrite app_nil_r.
  - destruct (IH (flush_raw st raw)) as [-> ->].
    destruct (flush_raw_locals st raw) as (_ & -> & _).
    split; [|reflexivity].
    rewrite flush_raw_frame. unfold piece_delta.
    destruct (frame_delta raw); simpl; [now rewrite app_assoc|reflexivity].
Qed.

(** Chunk after chunk, the read loop does what one pass of the
    reassembler over all the text received so far does, as long as every
    complete line passes. *)
Lemma read_loop_runs_reassembler (received : list text) (e : ReadEnd) :
  forall st,
    streamDone st = false ->
    ~ In LF (textBuffer st) ->
    Forall (fun line => line_passes line = true)
           (fst (reassemble (textBuffer st ++ concat received))) ->
    completion_state (read_loop received e st)
    = set_textBuffer
        (snd (reassemble (textBuffer st ++ concat received)))
        (fold_left flush_raw
           (fst (reassemble (textBuffer st ++ concat received))) st).
Proof.
  induction received as [|c cs IH]; intros st D Hrest H.
  - simpl. rewrite D, app_nil_r, reassemble_rest by assumption. simpl.
    destruct e; now destruct st.
  - simpl read_loop. rewrite D. unfold process_chunk.
    set (st0 := set_textBuffer (textBuffer st ++ c) st).
    simpl concat in *. rewrite app_assoc in *.
    rewrite (reassemble_app (textBuffer st ++ c) (concat cs)) in *.
    cbn [fst snd] in *. apply Forall_app in H as [H1 H2].
    assert (L : line_loop st0
                = set_textBuffer (snd (reassemble (textBuffer st ++ c)))
                    (fold_left flush_raw
                       (fst (reassemble (textBuffer st ++ c))) st0)).
    { apply (line_loop_runs_reassembler st0).
      eapply Forall_impl; [|exact H1]. intros line Hp s.
      eexists. now apply line_passes_continues. }
    rewrite L, IH.
    + cbn [textBuffer set_textBuffer]. rewrite fold_left_app.
      unfold st0. rewrite !fold_flush_set_textBuffer.
      now destruct (fold_left flush_raw _ (fold_left flush_raw _ st)).
    + cbn [streamDone set_textBuffer].
      destruct (fold_flush_reply (fst (reassemble (textBuffer st ++ c))) st0)
        as [_ ->]. exact D.
    + cbn [textBuffer set_textBuffer]. apply reassemble_keeps_partial.
    + cbn [textBuffer set_textBuffer]. exact H2.
Qed.

(** X17.  While every complete line passes (no sentinel line and no
    payload that fails to decode), the reply shown after any number of
    chunks is the concatenation of the deltas of the complete lines
    received so far, in their order, and the buffer holds exactly the
    unterminated rest: a delta is shown as soon as the line feed of its
    line has arrived, and not before. *)
Theorem reply_follows_complete_lines (messages0 : list Message)
  (userMessage : text) (received : list text) (e : ReadEnd) :
  Forall (fun line => line_passes line = true)
         (fst (reassemble (concat received))) ->
  let st :=
    completion_state
      (read_loop received e (streaming_start messages0 userMessage)) in
  assistantContent st
  = concat (map piece_delta (fst (reassemble (concat received))))
  /\ final_text st
     = Some (concat (map piece_delta (fst (reassemble (concat received)))))
  /\ textBuffer st = snd (reassemble (concat received))
  /\ streamDone st = false.
Proof.
  intros H st.
  pose proof (read_loop_runs_reassembler received e
                (streaming_start messages0 userMessage) eq_refl
                (fun F => F) H) as R.
  fold st in R. cbn [textBuffer streaming_start app] in R.
  destruct (fold_flush_reply (fst (reassemble (concat received)))
              (streaming_start messages0 userMessage)) as [A D].
  assert (A' : assistantContent st
               = concat (map piece_delta (fst (reassemble (concat received))))).
  { rewrite R. cbn [assistantContent set_textBuffer]. rewrite A. reflexivity. }
  split; [exact A'|]. split; [|split].
  - rewrite <- A'. apply final_text_tracks. unfold st.
    apply completion_tracks, streaming_start_tracks.
  - rewrite R. reflexivity.
  - rewrite R. cbn [streamDone set_textBuffer]. rewrite D. reflexivity.
Qed.

(** *** Chunk boundaries *)

Lemma startsWith_app_more (u w p : text) :
  startsWith u p = true -> startsWith (u ++ w) p = true.
Proof.
  revert u. induction p as [|b p IH]; intros u H; [reflexivity|].
  destruct u as [|a u]; [discriminate|]. simpl in *.
  apply andb_true_iff in H as [-> H]. simpl. now apply IH.
Qed.

Lemma split_app_no_sep (u v : text) (c : char) :
  ~ In c u ->
  split (u ++ v) c = (u ++ hd [] (split v c)) :: tl (split v c).
Proof.
  induction u as [|x u IH]; simpl; intros Hn.
  - pose proof (split_nonempty v c). now destruct (split v c).
  - destruct (N.eqb_spec x c) as [->|_]; [tauto|].
    rewrite IH by tauto. reflexivity.
Qed.

(** The pieces of the beginning of a text without data pieces are no data
    pieces either: the beginning of a piece that does not begin with the
    data prefix does not begin with it. *)
Lemma no_data_piece_prefix (u v : text) :
  no_data_piece (split (u ++ v) LF) = true ->
  no_data_piece (split u LF) = true.
Proof.
  remember (length u) as n eqn:En. revert u En.
  induction n as [n IH] using lt_wf_ind. intros u En H.
  destruct (first_occurrence u LF) as [Hn|(l & r & -> & Hl)].
  - rewrite split_app_no_sep in H by assumption.
    rewrite split_no_sep by assumption.
    unfold no_data_piece in *. cbn [forallb] in *.
    apply andb_true_iff in H as [H _]. rewrite andb_true_r.
    apply negb_true_iff in H. apply negb_true_iff.
    destruct (startsWith u (lit "data: ")) eqn:D; [|reflexivity].
    now rewrite (startsWith_app_more u _ _ D) in H.
  - rewrite <- app_assoc in H. cbn [app] in H.
    rewrite split_app in * by assumption.
    unfold no_data_piece in H |- *. cbn [forallb] in *.
    apply andb_true_iff in H as [H1 H2]. rewrite H1. cbn [andb].
    apply (IH (length r)); [|reflexivity|exact H2].
    rewrite En, length_app. simpl. lia.
Qed.

(** Flushing a text without data pieces changes nothing. *)
Lemma flush_all_no_data (t : text) (st : State) :
  no_data_piece (split t LF) = true -> flush_all t st = st.
Proof.
  unfold flush_all, no_data_piece.
  revert st.
  induction (split t LF) as [|raw pieces IH]; intros st H; [reflexivity|].
  cbn [forallb fold_left] in *. apply andb_true_iff in H as [H1 H2].
  apply negb_true_iff in H1.
  rewrite flush_raw_frame. destruct (non_data_line_inert raw H1) as [-> _].
  now apply IH.
Qed.

Lemma sentinel_closes_cons (l s : text) :
  sentinel_closes (l :: split s LF) =
  if sentinel_line l
  then no_data_piece (split s LF)
  else sentinel_closes (split s LF).
Proof.
  simpl. destruct (split s LF) eqn:E; [now destruct (split_nonempty s LF)|].
  reflexivity.
Qed.

(** When the loop stops at the sentinel, no data piece is left or still
    to come. *)
Lemma line_loop_done_closes (st : State) :
  streamDone st = false -> streamDone (line_loop st) = true ->
  forall x, sentinel_closes (split (textBuffer st ++ x) LF) = true ->
            no_data_piece (split (textBuffer (line_loop st) ++ x) LF) = true.
Proof.
  apply (line_loop_ind
           (fun st st' =>
              streamDone st = false -> streamDone st' = true ->
              forall x,
                sentinel_closes (split (textBuffer st ++ x) LF) = true ->
                no_data_piece (split (textBuffer st' ++ x) LF) = true)).
  - congruence.
  - intros s l rest st' Eb Hl S IH D0 D1 x W. apply IH; auto.
    + destruct (flush_raw_locals (set_textBuffer rest s) l) as (_ & -> & _).
      assumption.
    + destruct (flush_raw_locals (set_textBuffer rest s) l) as [-> _].
      simpl. rewrite Eb, <- app_assoc in W. simpl in W.
      rewrite split_app, sentinel_closes_cons, S in W by assumption. exact W.
  - intros s l rest Eb Hl S _ _ _ x W. simpl.
    rewrite Eb, <- app_assoc in W. simpl in W.
    rewrite split_app, sentinel_closes_cons, S in W by assumption. exact W.
  - intros s l rest _ _ _ _ _ _ D0 D1. simpl in D1. congruence.
Qed.

(** While the loop has not met the sentinel, it keeps the condition. *)
Lemma line_loop_keeps_closes (st : State) :
  streamDone st = false -> streamDone (line_loop st) = false ->
  forall x, sentinel_closes (split (textBuffer st ++ x) LF) = true ->
            sentinel_closes (split (textBuffer (line_loop st) ++ x) LF) = true.
Proof.
  apply (line_loop_ind
           (fun st st' =>
              streamDone st = false -> streamDone st' = false ->
              forall x,
                sentinel_closes (split (textBuffer st ++ x) LF) = true ->
                sentinel_closes (split (textBuffer st' ++ x) LF) = true)).
  - auto.
  - intros s l rest st' Eb Hl S IH D0 D1 x W. apply IH; auto.
    + destruct (flush_raw_locals (set_textBuffer rest s) l) as (_ & -> & _).
      assumption.
    + destruct (flush_raw_locals (set_textBuffer rest s) l) as [-> _].
      simpl. rewrite Eb, <- app_assoc in W. simpl in W.
      rewrite split_app, sentinel_closes_cons, S in W by assumption. exact W.
  - intros s l rest _ _ _ _ _ D1. simpl in D1. discriminate.
  - intros s l rest Eb Hl S _ _ _ _ _ x W. simpl.
    rewrite Eb, <- app_assoc in W. simpl in W.
    rewrite split_app, sentinel_closes_cons, S in W by assumption.
    rewrite <- app_assoc. simpl.
    rewrite split_app, sentinel_closes_cons by auto using strip_cr_no_lf.
    now rewrite sentinel_line_strip, S.
Qed.

(** Reading a stream in which no data line follows the sentinel line,
    chunk by chunk, then flushing, gives the conversation that one flush
    over the whole stream gives. *)
Lemma read_loop_whole_closes (cs : list text) :
  forall st,
    streamDone st = false ->
    sentinel_closes (split (textBuffer st ++ concat cs) LF) = true ->
    exists st',
      read_loop cs TransportDone st = Normal st'
      /\ chat (final_flush st')
         = chat (flush_all (textBuffer st ++ concat cs) st).
Proof.
  induction cs as [|c cs IH]; intros st D W.
  - exists st. simpl. rewrite D, app_nil_r. split; [reflexivity|].
    now rewrite final_flush_unguarded.
  - simpl read_loop. rewrite D. unfold process_chunk.
    set (st0 := set_textBuffer (textBuffer st ++ c) st).
    simpl concat in *. rewrite app_assoc in *.
    change (textBuffer st ++ c) with (textBuffer st0) in W.
    assert (Hflush :
              chat (flush_all ((textBuffer st ++ c) ++ concat cs) st)
              = chat (flush_all (textBuffer (line_loop st0) ++ concat cs)
                                (line_loop st0))).
    { rewrite flush_after_line_loop. apply flush_all_chat. reflexivity. }
    rewrite Hflush.
    destruct (streamDone (line_loop st0)) eqn:D1.
    + exists (line_loop st0). split; [now apply read_loop_done|].
      pose proof (line_loop_done_closes st0 D D1 _ W) as Q.
      rewrite final_flush_unguarded.
      rewrite (flush_all_no_data _ _ Q).
      now rewrite (flush_all_no_data _ _ (no_data_piece_prefix _ _ Q)).
    + apply IH; [assumption|]. now apply line_loop_keeps_closes.
Qed.

(** Where the code meets C1: for a stream in which no data line follows
    the sentinel line, every way of cutting it into chunks gives the same
    conversation, hence the same text of the assistant message.  What
    may follow the sentinel line is any text without the data prefix:
    blank lines, comments, other fields. *)
Lemma chunking_invariant_when_sentinel_closes (messages0 : list Message)
  (userMessage : text) (status : Z) (stream : text)
  (chunks1 chunks2 : list text) :
  sentinel_closes (split stream LF) = true ->
  concat chunks1 = stream ->
  concat chunks2 = stream ->
  let run cs :=
    streamChat messages0 userMessage
               (Response status (Some (mkBody cs TransportDone))) in
  final_text (run chunks1) = final_text (run chunks2)
  /\ messages (run chunks1) = messages (run chunks2)
  /\ assistantContent (run chunks1) = assistantContent (run chunks2).
Proof.
  intros W E1 E2 run.
  assert (H : chat (run chunks1) = chat (run chunks2)).
  { unfold run. destruct (ok status) eqn:Hok.
    - rewrite !streamChat_streaming by assumption. simpl chunks. simpl ending.
      set (st0 := streaming_start messages0 userMessage).
      destruct (read_loop_whole_closes chunks1 st0) as (st1 & -> & C1);
        [reflexivity|simpl; now rewrite E1|].
      destruct (read_loop_whole_closes chunks2 st0) as (st2 & -> & C2);
        [reflexivity|simpl; now rewrite E2|].
      change (chat (final_flush st1) = chat (final_flush st2)).
      rewrite C1, C2, E1, E2. reflexivity.
    - f_equal. now apply streamChat_unsuccessful. }
  pose proof (f_equal fst H) as Hm. pose proof (f_equal snd H) as Ha.
  change (messages (run chunks1) = messages (run chunks2)) in Hm.
  change (assistantContent (run chunks1) = assistantContent (run chunks2)) in Ha.
  unfold final_text. rewrite Hm. auto.
Qed.

End Extensions.

(* ------------------------------------------------------------------ *)
(** ** More runs on the reference platform *)

Ltac no_line_feed :=
  vm_compute; intros H;
  repeat (destruct H as [H|H]; [discriminate H|]); exact H.

(** The text typed between blanks is sent without them. *)
Lemma handleSend_sends_trimmed_witness :
  handleSend false typed_input
  = (Some (lit "hi there"),
     mkChatInput [] (lit "google/gemini-2.5-flash") false [7])
  /\ trim (lit "hi there") = lit "hi there".
Proof.
  assert (H : handleSend false typed_input
              = (Some (lit "hi there"),
                 mkChatInput [] (lit "google/gemini-2.5-flash") false [7]))
    by (vm_compute; reflexivity).
  split; [exact H|].
  apply (handleSend_sends_trimmed nat false typed_input _ (lit "hi there") H).
Defined.

(** Two files are picked and the preview of the second one is removed. *)
Lemma select_then_remove_witness :
  1 < length [8; 9]
  /\ attachedFiles
       (handleRemoveFile 2 (handleFileSelect (Some [8; 9]) typed_input))
     = [7; 8].
Proof.
  split; [simpl; lia|].
  apply (select_then_remove nat typed_input [8; 9] 1). simpl; lia.
Defined.

Lemma completed_stream_outcome_witness :
  ok 200 = true
  /\ messages
       (run_streamChat [] (lit "hi")
          (ok_response unterminated_chunks TransportDone))
     = [mkMessage user (lit "hi"); mkMessage assistant (lit "AB")].
Proof.
  split; [reflexivity|].
  apply (completed_stream_outcome (platform := reference_platform)
           [] (lit "hi") 200 unterminated_chunks).
  reflexivity.
Defined.

Lemma reply_is_deltas_in_order_witness :
  sentinel_last (split (concat hello_chunks) LF) = true
  /\ reply_of_stream (platform := reference_platform) (concat hello_chunks)
     = lit "Hello"
  /\ final_text
       (run_streamChat [] (lit "hi") (ok_response hello_chunks TransportDone))
     = Some (reply_of_stream (platform := reference_platform)
               (concat hello_chunks)).
Proof.
  split; [vm_compute; reflexivity|].
  split; [vm_compute; reflexivity|].
  apply (reply_is_deltas_in_order (platform := reference_platform)
           [] (lit "hi") 200 hello_chunks).
  - reflexivity.
  - vm_compute; reflexivity.
Defined.

Lemma non_data_line_is_ignored_witness :
  concat commented_chunks
  = (delta_line "A" ++ [LF]) ++ lit ": ping" ++ LF :: delta_line "B" ++ [LF]
  /\ final_text
       (run_streamChat [] (lit "hi")
          (ok_response commented_chunks TransportDone))
     = final_text
         (run_streamChat [] (lit "hi")
            (ok_response uncommented_chunks TransportDone)).
Proof.
  split; [vm_compute; reflexivity|].
  apply (non_data_line_is_ignored (platform := reference_platform)
           [] (lit "hi") 200
           (delta_line "A" ++ [LF]) (lit ": ping") (delta_line "B" ++ [LF])
           commented_chunks uncommented_chunks).
  - right. exists (delta_line "A"). reflexivity.
  - no_line_feed.
  - vm_compute; reflexivity.
  - vm_compute; reflexivity.
  - vm_compute; reflexivity.
  - vm_compute; reflexivity.
Defined.

(** A chunk and a broken connection after the sentinel of [hello_chunks]
    go unnoticed. *)
Lemma sentinel_ends_reading_witness :
  streamDone
    (completion_state
       (read_loop (platform := reference_platform) hello_chunks TransportDone
                  (streaming_start [] (lit "hi")))) = true
  /\ run_streamChat [] (lit "hi")
       (ok_response (hello_chunks ++ [delta_line "Z" ++ [LF]]) TransportBroken)
     = run_streamChat [] (lit "hi") (ok_response hello_chunks TransportDone).
Proof.
  split; [vm_compute; reflexivity|].
  apply (sentinel_ends_reading (platform := reference_platform)).
  vm_compute; reflexivity.
Defined.

Lemma welcome_only_after_failure_witness :
  render (run_streamChat [] (lit "hi") FetchRejected) = Welcome
  /\ toasts (run_streamChat [] (lit "hi") FetchRejected) = [GenericFailure].
Proof.
  assert (H : render (run_streamChat [] (lit "hi") FetchRejected) = Welcome)
    by (vm_compute; reflexivity).
  split; [exact H|].
  apply (welcome_only_after_failure (platform := reference_platform)
           [] (lit "hi") FetchRejected H).
Defined.

(** After the first chunk of [split_payload_chunks] the loop is blocked:
    the two chunks that follow change nothing until the flush, which
    applies the data line of the last chunk. *)
Lemma undecodable_line_blocks_loop_witness :
  textBuffer blocked_state = blocked_line ++ [LF]
  /\ undecodable_line (platform := reference_platform) blocked_line
  /\ chat
       (completion_state
          (read_loop (platform := reference_platform)
             [ jlit "'done':false}" ++ [LF]; delta_line "B" ++ [LF] ]
             TransportDone blocked_state))
     = chat blocked_state.
Proof.
  assert (U : undecodable_line (platform := reference_platform) blocked_line).
  { split; [vm_compute; reflexivity|].
    split; [vm_compute; intros H; discriminate H|vm_compute; reflexivity]. }
  split; [vm_compute; reflexivity|]. split; [exact U|].
  apply (undecodable_line_blocks_loop (platform := reference_platform)
           [ jlit "'done':false}" ++ [LF]; delta_line "B" ++ [LF] ]
           blocked_state blocked_line []).
  - vm_compute; reflexivity.
  - vm_compute; reflexivity.
  - no_line_feed.
  - exact U.
Defined.

Lemma send_click_outcome_witness :
  fst (send_click (platform := reference_platform) [] false typed_input
         (ok_response hello_chunks TransportDone))
  = Some (run_streamChat [] (lit "hi there")
            (ok_response hello_chunks TransportDone))
  /\ trim (input typed_input) <> [].
Proof.
  split; [vm_compute; reflexivity|].
  refine (proj1 (proj2
    (send_click_outcome (platform := reference_platform)
       nat [] false typed_input
       (mkChatInput [] (lit "google/gemini-2.5-flash") false [7])
       (ok_response hello_chunks TransportDone)
       (run_streamChat [] (lit "hi there")
          (ok_response hello_chunks TransportDone)) _))).
  vm_compute; reflexivity.
Defined.

(** After three of the four chunks of [hello_chunks] the first data line,
    the comment and the blank line are complete: the reply shows "Hel"
    and the second data line waits in the buffer for its line feed. *)
Lemma reply_follows_complete_lines_witness :
  forallb (line_passes (platform := reference_platform))
          (fst (reassemble (concat (firstn 3 hello_chunks)))) = true
  /\ concat (map (piece_delta (platform := reference_platform))
                 (fst (reassemble (concat (firstn 3 hello_chunks)))))
     = lit "Hel"
  /\ snd (reassemble (concat (firstn 3 hello_chunks))) = delta_line "lo"
  /\ assistantContent
       (completion_state
          (read_loop (platform := reference_platform) (firstn 3 hello_chunks)
                     TransportDone (streaming_start [] (lit "hi"))))
     = concat (map (piece_delta (platform := reference_platform))
                   (fst (reassemble (concat (firstn 3 hello_chunks))))).
Proof.
  assert (B : forallb (line_passes (platform := reference_platform))
                      (fst (reassemble (concat (firstn 3 hello_chunks))))
              = true) by (vm_compute; reflexivity).
  split; [exact B|].
  split; [vm_compute; reflexivity|].
  split; [vm_compute; reflexivity|].
  refine (proj1 (reply_follows_complete_lines
                   (platform := reference_platform)
                   [] (lit "hi") (firstn 3 hello_chunks) TransportDone _)).
  apply Forall_forall. intros line Hin.
  exact (proj1 (forallb_forall _ _) B line Hin).
Defined.

(** The stream closed by a blank line after the sentinel line: its two
    chunkings have the same outcome, the text "Hello". *)
Example chunking_of_closed_stream :
  sentinel_closes (split hello_stream_closed LF) = true
  /\ well_formed (platform := reference_platform) hello_stream_closed = true
  /\ final_text (run_streamChat [] (lit "hi")
                   (ok_response hello_chunks_closed TransportDone))
     = final_text (run_streamChat [] (lit "hi")
                     (ok_response [hello_stream_closed] TransportDone))
  /\ final_text (run_streamChat [] (lit "hi")
                   (ok_response hello_chunks_closed TransportDone))
     = Some (lit "Hello").
Proof.
  split; [vm_compute; reflexivity|].
  split; [vm_compute; reflexivity|].
  split; [|vm_compute; reflexivity].
  apply (chunking_invariant_when_sentinel_closes
           (platform := reference_platform)
           [] (lit "hi") 200 hello_stream_closed
           hello_chunks_closed [hello_stream_closed]);
    vm_compute; reflexivity.
Defined.
